(* ===================================================================== *)
(*  Resource-version diff of amplication's ResourceVersionService         *)
(*  (getPreviousVersion and compareResourceVersions), embedded in Rocq.   *)
(*                                                                        *)
(*  The service methods are translated as they are written: the two       *)
(*  for-of loops with their push calls become folds over a record of the  *)
(*  five arrays that are alive during the loops, Array.prototype.find     *)
(*  and indexOf keep their JavaScript results (undefined, -1), the        *)
(*  collaborators reached through this.prisma and this.blockService are   *)
(*  interfaces, semver's sort is a function that returns or throws, and   *)
(*  a thrown error is a value of a result type.                           *)
(* ===================================================================== *)

Set Warnings "-notation-overridden,-redundant-canonical-projection,-rewrite-rw".
From HB Require Import structures.
From Stdlib Require Import String Ascii ZArith.
From mathcomp Require Import ssreflect ssrfun ssrbool eqtype ssrnat seq path.

Set Implicit Arguments.
Unset Strict Implicit.
Unset Printing Implicit Defensive.

(* --------------------------------------------------------------------- *)
(*  Equality tests of the code: === on strings and on numbers             *)
(* --------------------------------------------------------------------- *)

HB.instance Definition _ := hasDecEq.Build string String.eqb_spec.
HB.instance Definition _ := hasDecEq.Build Z Z.eqb_spec.

(* --------------------------------------------------------------------- *)
(*  JavaScript values that may be null or undefined                       *)
(* --------------------------------------------------------------------- *)

Module Js.

(* A reference that is an object, null (prisma's findFirst, the explicit
   returns of getPreviousVersion) or undefined (Array.prototype.find). *)
Inductive nullable (T : Type) : Type :=
  | Null
  | Undefined
  | Value (x : T).

Arguments Null {T}.
Arguments Undefined {T}.
Arguments Value {T} x.

(* if (x) ... on an object reference: objects are truthy, null and
   undefined are falsy. *)
Definition truthy {T : Type} (x : nullable T) : bool :=
  if x is Value _ then true else false.

(* if (s) ... on an optional string: undefined and the empty string are
   falsy. *)
Definition truthyString (s : option string) : bool :=
  match s with
  | Some EmptyString => false
  | Some _ => true
  | None => false
  end.

(* Array.prototype.find: the first element satisfying the callback, in
   index order, undefined when there is none. *)
Fixpoint arrayFind {T : Type} (p : pred T) (s : seq T) : nullable T :=
  match s with
  | [::] => Undefined
  | x :: s' => if p x then Value x else arrayFind p s'
  end.

(* Array.prototype.indexOf: the first index holding a === value, -1 when
   there is none. *)
Fixpoint indexOfFrom {T : eqType} (i : Z) (x : T) (s : seq T) : Z :=
  match s with
  | [::] => (-1)%Z
  | y :: s' => if y == x then i else indexOfFrom (Z.succ i) x s'
  end.

Definition indexOf {T : eqType} (x : T) (s : seq T) : Z := indexOfFrom 0%Z x s.

(* a[i]: undefined (None) outside the array. *)
Definition arrayGet {T : Type} (s : seq T) (i : Z) : option T :=
  if (i <? 0)%Z then None else ohead (drop (Z.to_nat i) s).

End Js.

Import Js.

(* --------------------------------------------------------------------- *)
(*  Data model                                                            *)
(* --------------------------------------------------------------------- *)

(* blockVersion.block: only its id is read. *)
Record Block : Type := mkBlock { block_id : string }.

(* models/BlockVersion: the row id stands for the payload the diff does
   not interpret. *)
Record BlockVersion : Type := mkBlockVersion {
  bv_id : string;
  block : Block;
  versionNumber : Z
}.

(* dto/ResourceVersionsDiffBlock *)
Record ResourceVersionsDiffBlock : Type := mkDiffBlock {
  sourceBlockVersion : BlockVersion;
  targetBlockVersion : BlockVersion
}.

(* dto/ResourceVersionsDiff *)
Record ResourceVersionsDiff : Type := mkDiff {
  updatedBlocks : seq ResourceVersionsDiffBlock;
  createdBlocks : seq BlockVersion;
  deletedBlocks : seq BlockVersion
}.

(* dto/ResourceVersion, with the columns the service reads or filters on. *)
Record ResourceVersion : Type := mkResourceVersion {
  rv_id : string;
  resourceId : string;
  version : string;
  createdAt : Z
}.

(* args.where of CompareResourceVersionsArgs; resource is { id }. *)
Record CompareResourceVersionsWhere : Type := mkWhere {
  sourceVersion : option string;
  targetVersion : string;
  resource_id : string
}.

Definition block_to_string (b : Block) : string := block_id b.
Lemma block_stringK : cancel block_to_string mkBlock.
Proof. by case. Qed.
HB.instance Definition _ := Equality.copy Block (can_type block_stringK).

Definition bv_to_tuple (bv : BlockVersion) : string * Block * Z :=
  (bv_id bv, block bv, versionNumber bv).
Definition tuple_to_bv (t : string * Block * Z) : BlockVersion :=
  mkBlockVersion t.1.1 t.1.2 t.2.
Lemma bv_tupleK : cancel bv_to_tuple tuple_to_bv.
Proof. by case. Qed.
HB.instance Definition _ := Equality.copy BlockVersion (can_type bv_tupleK).

Definition diffblock_to_pair (d : ResourceVersionsDiffBlock) :
  BlockVersion * BlockVersion := (sourceBlockVersion d, targetBlockVersion d).
Definition pair_to_diffblock (p : BlockVersion * BlockVersion) :
  ResourceVersionsDiffBlock := mkDiffBlock p.1 p.2.
Lemma diffblock_pairK : cancel diffblock_to_pair pair_to_diffblock.
Proof. by case. Qed.
HB.instance Definition _ :=
  Equality.copy ResourceVersionsDiffBlock (can_type diffblock_pairK).

(* blockVersion.block.id *)
Definition blockId (bv : BlockVersion) : string := block_id (block bv).

(* The callback of both find calls:
   (blockVersion) => blockVersion.block.id === other.block.id *)
Definition sameBlock (other : BlockVersion) : pred BlockVersion :=
  fun blockVersion => blockId blockVersion == blockId other.

(* --------------------------------------------------------------------- *)
(*  The diff loops of compareResourceVersions (lines 523-560)             *)
(* --------------------------------------------------------------------- *)

Module DiffLoops.

(* The arrays alive while the loops run: the two inputs and the three
   arrays allocated empty just before the first loop. *)
Record State : Type := mkState {
  sourceBlockVersions : seq BlockVersion;
  targetBlockVersions : seq BlockVersion;
  updated : seq ResourceVersionsDiffBlock;
  deleted : seq BlockVersion;
  created : seq BlockVersion
}.

Definition init (source target : seq BlockVersion) : State :=
  mkState source target [::] [::] [::].

(* updated.push(x), deleted.push(x), created.push(x) *)
Definition pushUpdated (x : ResourceVersionsDiffBlock) (st : State) : State :=
  mkState (sourceBlockVersions st) (targetBlockVersions st)
          (rcons (updated st) x) (deleted st) (created st).

Definition pushDeleted (x : BlockVersion) (st : State) : State :=
  mkState (sourceBlockVersions st) (targetBlockVersions st)
          (updated st) (rcons (deleted st) x) (created st).

Definition pushCreated (x : BlockVersion) (st : State) : State :=
  mkState (sourceBlockVersions st) (targetBlockVersions st)
          (updated st) (deleted st) (rcons (created st) x).

(* Body of the first loop, for one sourceBlockVersion. *)
Definition sourceStep (st : State) (sourceBV : BlockVersion) : State :=
  match arrayFind (sameBlock sourceBV) (targetBlockVersions st) with
  | Value targetBV =>
      if versionNumber sourceBV != versionNumber targetBV
      then pushUpdated (mkDiffBlock sourceBV targetBV) st
      else st
  | _ => pushDeleted sourceBV st
  end.

(* Body of the second loop, for one targetBlockVersion. *)
Definition targetStep (st : State) (targetBV : BlockVersion) : State :=
  if truthy (arrayFind (sameBlock targetBV) (sourceBlockVersions st))
  then st
  else pushCreated targetBV st.

(* for (const s of sourceBlockVersions) ...; for (const t of
   targetBlockVersions) ... *)
Definition run (st : State) : State :=
  let st1 := foldl sourceStep st (sourceBlockVersions st) in
  foldl targetStep st1 (targetBlockVersions st1).

(* return { updatedBlocks: updated, createdBlocks: created,
            deletedBlocks: deleted } *)
Definition result (st : State) : ResourceVersionsDiff :=
  mkDiff (updated st) (created st) (deleted st).

End DiffLoops.

(* The diff of two collections of block versions: fresh output arrays,
   the two loops, the returned object. *)
Definition diffBlockVersions (source target : seq BlockVersion) :
  ResourceVersionsDiff :=
  DiffLoops.result (DiffLoops.run (DiffLoops.init source target)).

(* --------------------------------------------------------------------- *)
(*  Errors                                                                *)
(* --------------------------------------------------------------------- *)

(* new Error(message) *)
Record Error : Type := mkError { message : string }.

Inductive Result (T : Type) : Type :=
  | Ok (x : T)
  | Throw (e : Error).

Arguments Ok {T} x.
Arguments Throw {T} e.

Definition raises {T : Type} (r : Result T) : bool :=
  if r is Throw _ then true else false.

(* --------------------------------------------------------------------- *)
(*  Collaborators                                                         *)
(* --------------------------------------------------------------------- *)

(* this.prisma.resourceVersion, restricted to the two queries issued:
   findFirst({ where: { resourceId, version } }) and
   findMany({ where: { resourceId }, orderBy: { createdAt: "desc" } }).
   The awaited calls are taken as functions that return: a rejection
   inside a collaborator is not behaviour of the service's own code. *)
Record PrismaResourceVersion : Type := mkPrisma {
  findFirst : string -> string -> nullable ResourceVersion;
  findMany : string -> seq ResourceVersion
}.

(* this.blockService *)
Record BlockService : Type := mkBlockService {
  getBlockVersionsByResourceVersions : string -> seq BlockVersion
}.

(* --------------------------------------------------------------------- *)
(*  ResourceVersionService                                                *)
(* --------------------------------------------------------------------- *)

Section ResourceVersionService.

(* sort of the semver package: the version strings in ascending semver
   order, or the TypeError it throws when it compares a string that is
   not a semver version. *)
Variable sort : seq string -> Result (seq string).
Variable prisma : PrismaResourceVersion.
Variable blockService : BlockService.

(* sort(versions.map((v) => v.version)) *)
Definition sortedVersionsOf (resourceId_ : string) : Result (seq string) :=
  sort [seq version v | v <- findMany prisma resourceId_].

Definition getPreviousVersion (resourceId_ version_ : string) :
  Result (nullable ResourceVersion) :=
  let versions := findMany prisma resourceId_ in
  match sort [seq version v | v <- versions] with
  | Throw e => Throw e
  | Ok sortedVersions =>
      let index := indexOf version_ sortedVersions in
      if (index =? -1)%Z then Ok Null
      else if (index =? 0)%Z then Ok Null
      else Ok (arrayFind
                 (fun v => Some (version v)
                           == arrayGet sortedVersions (index - 1)%Z)
                 versions)
  end.

(* The resource version read for the source side (lines 482-497); in
   the first branch sourceVersion is a non-empty string. *)
Definition resolveSource (w : CompareResourceVersionsWhere) :
  Result (nullable ResourceVersion) :=
  if truthyString (sourceVersion w)
  then Ok (findFirst prisma (resource_id w)
             (odflt EmptyString (sourceVersion w)))
  else getPreviousVersion (resource_id w) (targetVersion w).

Definition sourceBlockVersionsOf (w : CompareResourceVersionsWhere) :
  Result (seq BlockVersion) :=
  match resolveSource w with
  | Throw e => Throw e
  | Ok (Value sourceResourceVersion) =>
      Ok (getBlockVersionsByResourceVersions blockService
            (rv_id sourceResourceVersion))
  | Ok _ => Ok [::]
  end.

Definition notFoundMessage (w : CompareResourceVersionsWhere) : string :=
  String.append "Resource version with version "
    (String.append (targetVersion w)
       (String.append " not found for resource " (resource_id w))).

Definition compareResourceVersions (w : CompareResourceVersionsWhere) :
  Result ResourceVersionsDiff :=
  match sourceBlockVersionsOf w with
  | Throw e => Throw e
  | Ok sourceBlockVersions =>
      match findFirst prisma (resource_id w) (targetVersion w) with
      | Value targetResourceVersion =>
          let targetBlockVersions :=
            getBlockVersionsByResourceVersions blockService
              (rv_id targetResourceVersion) in
          Ok (diffBlockVersions sourceBlockVersions targetBlockVersions)
      | _ => Throw (mkError (notFoundMessage w))
      end
  end.

End ResourceVersionService.

(* --------------------------------------------------------------------- *)
(*  Instances of the collaborators, for running the service               *)
(* --------------------------------------------------------------------- *)

HB.instance Definition _ := hasDecEq.Build ascii Ascii.eqb_spec.

Module Semver.

(* The numeric fields of a MAJOR.MINOR.PATCH string, left to right. *)
Fixpoint fields (s : string) (cur : nat) : seq nat :=
  match s with
  | EmptyString => [:: cur]
  | String c s' =>
      if c == "."%char then cur :: fields s' 0
      else fields s' (10 * cur + (nat_of_ascii c - 48))
  end.

Fixpoint lexLeq (a b : seq nat) : bool :=
  match a, b with
  | [::], _ => true
  | _ :: _, [::] => false
  | x :: a', y :: b' => (x < y) || ((x == y) && lexLeq a' b')
  end.

Definition leq (a b : string) : bool := lexLeq (fields a 0) (fields b 0).

Definition isDigit (c : ascii) : bool :=
  (48 <= nat_of_ascii c) && (nat_of_ascii c <= 57).

(* The dot-separated parts of a string, left to right. *)
Fixpoint parts (s : string) (cur : seq ascii) : seq (seq ascii) :=
  match s with
  | EmptyString => [:: rev cur]
  | String c s' =>
      if c == "."%char then rev cur :: parts s' [::]
      else parts s' (c :: cur)
  end.

(* A numeric identifier: digits, without a leading zero. *)
Definition numeric (p : seq ascii) : bool :=
  [&& p != [::], all isDigit p
    & (size p == 1) || (head "0"%char p != "0"%char)].

(* A plain version: three numeric identifiers. *)
Definition plain (s : string) : bool :=
  (size (parts s [::]) == 3) && all numeric (parts s [::]).

Definition ascending (versions : seq string) : seq string :=
  path.sort leq versions.

Definition invalidVersion (version_ : string) : Error :=
  mkError (String.append "Invalid Version: " version_).

(* What semver's sort does on lists of plain versions and of strings
   that are no versions at all: ascending order of the numeric fields;
   the comparison of two strings parses both and throws on one that is
   no version, and a list of fewer than two strings is returned without
   any comparison. The error names the first such string of the list. *)
Definition sort (versions : seq string) : Result (seq string) :=
  if (size versions < 2) || all plain versions then Ok (ascending versions)
  else Throw (invalidVersion
                (head EmptyString [seq v <- versions | ~~ plain v])).

End Semver.

Module InMemory.

(* A resourceVersion table held as a list of rows, in storage order. *)
Definition findFirst (rows : seq ResourceVersion) (resourceId_ version_ : string) :
  nullable ResourceVersion :=
  match arrayFind
          (fun r => (resourceId r == resourceId_) && (version r == version_))
          rows with
  | Value r => Value r
  | _ => Null
  end.

Definition findMany (rows : seq ResourceVersion) (resourceId_ : string) :
  seq ResourceVersion :=
  path.sort (fun a b => (createdAt b <=? createdAt a)%Z)
    [seq r <- rows | resourceId r == resourceId_].

Definition prisma (rows : seq ResourceVersion) : PrismaResourceVersion :=
  mkPrisma (findFirst rows) (findMany rows).

(* Block versions connected to resource versions, as (resource version
   id, block version) rows. *)
Definition blockService (links : seq (string * BlockVersion)) : BlockService :=
  mkBlockService
    (fun resourceVersionId =>
       [seq l.2 | l <- links & l.1 == resourceVersionId]).

End InMemory.

(* --------------------------------------------------------------------- *)
(*  Vocabulary of the statements                                          *)
(* --------------------------------------------------------------------- *)

(* What the first loop pushes to updated for one source item. *)
Definition changedPair (target : seq BlockVersion) (s : BlockVersion) :
  option ResourceVersionsDiffBlock :=
  if arrayFind (sameBlock s) target is Value t
  then if versionNumber s != versionNumber t then Some (mkDiffBlock s t)
       else None
  else None.

(* t is the first item of the collection, in iteration order, whose
   block id is that of bv. *)
Definition firstWithBlock (bv : BlockVersion) (collection : seq BlockVersion)
    (t : BlockVersion) : Prop :=
  exists pre post,
    [/\ collection = pre ++ t :: post,
        blockId t = blockId bv
      & all (fun x => blockId x != blockId bv) pre].

(* How often an item occurs in each place of a diff. *)
Definition occDeleted (d : ResourceVersionsDiff) (s : BlockVersion) : nat :=
  count_mem s (deletedBlocks d).

Definition occCreated (d : ResourceVersionsDiff) (t : BlockVersion) : nat :=
  count_mem t (createdBlocks d).

Definition occUpdatedSource (d : ResourceVersionsDiff) (s : BlockVersion) : nat :=
  count (fun p => sourceBlockVersion p == s) (updatedBlocks d).

Definition occUpdatedTarget (d : ResourceVersionsDiff) (t : BlockVersion) : nat :=
  count (fun p => targetBlockVersion p == t) (updatedBlocks d).

Definition emptyDiff : ResourceVersionsDiff := mkDiff [::] [::] [::].

(* Items of the collection that share a block id share the
   versionNumber. *)
Definition versionsAgree (X : seq BlockVersion) : bool :=
  all (fun a =>
         all (fun b => (blockId a == blockId b)
                         ==> (versionNumber a == versionNumber b)) X) X.

(* --------------------------------------------------------------------- *)
(*  Sample data                                                           *)
(* --------------------------------------------------------------------- *)

Module Example.

Definition bv (rowId blockId_ : string) (n : Z) : BlockVersion :=
  mkBlockVersion rowId (mkBlock blockId_) n.

Definition a1 : BlockVersion := bv "bv-a1" "a" 1.
Definition a2 : BlockVersion := bv "bv-a2" "a" 2.
Definition b1 : BlockVersion := bv "bv-b1" "b" 1.
Definition c1 : BlockVersion := bv "bv-c1" "c" 1.
Definition x3 : BlockVersion := bv "bv-x3" "x" 3.
Definition a1' : BlockVersion := bv "bv-a1-copy" "a" 1.
Definition a3 : BlockVersion := bv "bv-a3" "a" 3.

(* One item per block id on each side. *)
Definition source : seq BlockVersion := [:: a1; b1; x3].
Definition target : seq BlockVersion := [:: x3; a2; c1].

(* Two items of block a on the same side, with different and with equal
   version numbers. *)
Definition twice : seq BlockVersion := [:: a1; a2].
Definition twiceSame : seq BlockVersion := [:: a1; b1; a1'].
Definition thrice : seq BlockVersion := [:: a3; a1; a2].

(* Resource r1 with four versions, stored in creation order; r2 with one. *)
Definition rv10 : ResourceVersion := mkResourceVersion "rv-1.0.0" "r1" "1.0.0" 100.
Definition rv12 : ResourceVersion := mkResourceVersion "rv-1.2.0" "r1" "1.2.0" 200.
Definition rv110 : ResourceVersion := mkResourceVersion "rv-1.10.0" "r1" "1.10.0" 300.
Definition rv11 : ResourceVersion := mkResourceVersion "rv-1.1.0" "r1" "1.1.0" 400.
Definition other : ResourceVersion := mkResourceVersion "rv-other" "r2" "0.1.0" 150.

Definition rows : seq ResourceVersion := [:: rv10; other; rv12; rv110; rv11].

(* A table in which r1 has a version string that is not a semver
   version. *)
Definition latestTag : ResourceVersion :=
  mkResourceVersion "rv-latest" "r1" "latest" 600.
Definition tagged : seq ResourceVersion := [:: rv10; latestTag].

Definition links : seq (string * BlockVersion) :=
  [:: ("rv-1.0.0", a1); ("rv-1.0.0", b1); ("rv-1.0.0", x3);
      ("rv-1.1.0", x3); ("rv-1.1.0", a2); ("rv-1.1.0", c1);
      ("rv-1.2.0", a1); ("rv-1.2.0", a2);
      ("rv-1.10.0", a3); ("rv-1.10.0", a1); ("rv-1.10.0", a2)]%string.

Definition prisma : PrismaResourceVersion := InMemory.prisma rows.
Definition blockService : BlockService := InMemory.blockService links.

(* Compare 1.2.0 with 1.10.0; compare 1.0.0 and 9.9.9 with whatever
   precedes them. *)
Definition request : CompareResourceVersionsWhere :=
  mkWhere (Some "1.2.0"%string) "1.10.0" "r1".
Definition firstRequest : CompareResourceVersionsWhere :=
  mkWhere None "1.0.0" "r1".
Definition missingRequest : CompareResourceVersionsWhere :=
  mkWhere None "9.9.9" "r1".

End Example.

(* --------------------------------------------------------------------- *)
(*  Further vocabulary for the diff                                       *)
(* --------------------------------------------------------------------- *)

(* The block ids of a collection, in its order. *)
Definition blockIds (l : seq BlockVersion) : seq string :=
  [seq blockId x | x <- l].

(* The block ids named by the pairs of updatedBlocks (source halves). *)
Definition updatedIds (d : ResourceVersionsDiff) : seq string :=
  [seq blockId (sourceBlockVersion p) | p <- updatedBlocks d].

(* The two fields the loops read from an item. *)
Definition comparedFields (bv : BlockVersion) : string * Z :=
  (blockId bv, versionNumber bv).

(* A diff with every item replaced by its image under f. *)
Definition mapDiff (f : BlockVersion -> BlockVersion) (d : ResourceVersionsDiff) :
  ResourceVersionsDiff :=
  mkDiff [seq mkDiffBlock (f (sourceBlockVersion p)) (f (targetBlockVersion p))
         | p <- updatedBlocks d]
         [seq f t | t <- createdBlocks d]
         [seq f s | s <- deletedBlocks d].

(* A source item that has a counterpart in the target collection and is
   not pushed to updated: find returns an item with the same
   versionNumber. *)
Definition unchanged (target : seq BlockVersion) (s : BlockVersion) : bool :=
  if arrayFind (sameBlock s) target is Value t
  then versionNumber s == versionNumber t
  else false.

(* --------------------------------------------------------------------- *)
(*  More sample data                                                      *)
(* --------------------------------------------------------------------- *)

Module Sample.

(* The same block and versionNumber under another row id. *)
Definition redact (x : BlockVersion) : BlockVersion :=
  mkBlockVersion "redacted" (block x) (versionNumber x).

(* The collections of Example in another order. *)
Definition sourceShuffled : seq BlockVersion :=
  [:: Example.x3; Example.a1; Example.b1].
Definition targetShuffled : seq BlockVersion :=
  [:: Example.c1; Example.a2; Example.x3].

(* The same blocks and version numbers as Example.source, other rows. *)
Definition sourceCopy : seq BlockVersion :=
  [:: Example.bv "copy-b" "b" 1; Example.bv "copy-x" "x" 3;
      Example.bv "copy-a" "a" 1].

End Sample.

(* --------------------------------------------------------------------- *)
(*  === on resource version rows                                          *)
(* --------------------------------------------------------------------- *)

Definition rv_to_tuple (r : ResourceVersion) : string * string * string * Z :=
  (rv_id r, resourceId r, version r, createdAt r).
Definition tuple_to_rv (t : string * string * string * Z) : ResourceVersion :=
  mkResourceVersion t.1.1.1 t.1.1.2 t.1.2 t.2.
Lemma rv_tupleK : cancel rv_to_tuple tuple_to_rv.
Proof. by case. Qed.
HB.instance Definition _ := Equality.copy ResourceVersion (can_type rv_tupleK).

(* Requests for the sample table: a source version that is not stored,
   and a version compared with itself. *)
Module SampleRequests.

Definition unknownSource : CompareResourceVersionsWhere :=
  mkWhere (Some "7.7.7"%string) "1.0.0" "r1".
Definition itself : CompareResourceVersionsWhere :=
  mkWhere (Some "1.1.0"%string) "1.1.0" "r1".

End SampleRequests.

(* --------------------------------------------------------------------- *)
(*  ResourceVersionService.validateVersion and create (lines 342-416)     *)
(* --------------------------------------------------------------------- *)

Module Creation.

(* How a call ends: with a value, with a thrown Error object, or with
   the TypeError of a property read on null or undefined. *)
Inductive Completion (T : Type) : Type :=
  | Returned (x : T)
  | ThrownError (e : Error)
  | ThrownTypeError.

Arguments Returned {T} x.
Arguments ThrownError {T} e.
Arguments ThrownTypeError {T}.

Definition thrown {T : Type} (c : Completion T) : bool :=
  if c is Returned _ then false else true.

(* The resource read by resourceService.findOne: its resourceType. *)
Record Resource : Type := mkResource { resourceType : string }.

(* An entity version as returned by entityService.getLatestVersions:
   its id. *)
Record EntityVersion : Type := mkEntityVersion { ev_id : string }.

(* args.data: version and resource.connect.id. *)
Record CreateData : Type := mkCreateData {
  data_version : string;
  data_resource : string
}.

(* The data object handed to prisma.resourceVersion.create: args.data
   spread, createdAt, and the ids to connect. *)
Record RowData : Type := mkRowData {
  row_version : string;
  row_resource : string;
  row_createdAt : Z;
  row_blockVersions : seq string;
  row_entityVersions : seq string
}.

(* What the method asks of its collaborators besides reading:
   logger.error, prisma.resourceVersion.create and
   outdatedVersionAlertService.triggerAlertsForTemplateVersion. *)
Inductive Effect : Type :=
  | LoggerError (msg : string)
  | PrismaCreate (data : RowData)
  | TriggerAlerts (resourceId_ : string) (previousVersion : option string)
      (newVersion : string).

Definition isPrismaCreate (e : Effect) : bool :=
  if e is PrismaCreate _ then true else false.

(* The collaborators of create; findLatest is the query of getLatest
   (findFirst by resourceId, newest createdAt first), valid is semver's
   valid (the version, or null), now is new Date(). The calls before
   the write and the write itself are taken to return; triggerAlerts,
   awaited after the write, returns or rejects with an error. *)
Record Services : Type := mkServices {
  valid : string -> option string;
  resourceFindOne : string -> nullable Resource;
  entityGetLatestVersions : string -> seq EntityVersion;
  blockGetLatestVersions : string -> seq BlockVersion;
  findLatest : string -> nullable ResourceVersion;
  prismaCreate : RowData -> ResourceVersion;
  triggerAlerts : string -> option string -> string -> Result unit;
  now : Z
}.

Section Service.

(* EnumResourceType.ServiceTemplate *)
Variable ServiceTemplate : string.
Variable prisma : PrismaResourceVersion.
Variable services : Services.

Definition requiredMessage : string := "Version is required".

Definition invalidMessage (version_ : string) : string :=
  String.append "Version "
    (String.append version_ " is not a valid semver version").

Definition existsMessage (version_ resourceId_ : string) : string :=
  String.append "Version "
    (String.append version_
       (String.append " already exists for resource " resourceId_)).

Definition validateVersion (version_ resourceId_ : string) : Result unit :=
  if ~~ truthyString (Some version_) then Throw (mkError requiredMessage)
  else if ~~ truthyString (valid services version_)
  then Throw (mkError (invalidMessage version_))
  else if truthy (findFirst prisma resourceId_ version_)
  then Throw (mkError (existsMessage version_ resourceId_))
  else Ok tt.

Definition getLatest (resourceId_ : string) : nullable ResourceVersion :=
  findLatest services resourceId_.

Definition unsupportedMessage (resourceType_ resourceId_ : string) : string :=
  String.append
    "Resource version is supported only for service templates, but received resource of type "
    (String.append resourceType_ (String.append " with id " resourceId_)).

(* previousVersion?.version *)
Definition versionOf (r : nullable ResourceVersion) : option string :=
  if r is Value row then Some (version row) else None.

Definition rowDataOf (data : CreateData) : RowData :=
  let resourceId_ := data_resource data in
  mkRowData (data_version data) resourceId_ (now services)
    [seq bv_id v | v <- blockGetLatestVersions services resourceId_]
    [seq ev_id v | v <- entityGetLatestVersions services resourceId_].

Definition create (data : CreateData) :
  Completion (nullable ResourceVersion) * seq Effect :=
  let resourceId_ := data_resource data in
  match validateVersion (data_version data) resourceId_ with
  | Throw e => (ThrownError e, [::])
  | Ok _ =>
      match resourceFindOne services resourceId_ with
      | Value resource =>
          if resourceType resource != ServiceTemplate
          then (Returned Undefined,
                [:: LoggerError
                      (unsupportedMessage (resourceType resource) resourceId_)])
          else
            let previousVersion := getLatest resourceId_ in
            let row := rowDataOf data in
            let resourceVersion := prismaCreate services row in
            let effects :=
              [:: PrismaCreate row;
                  TriggerAlerts resourceId_ (versionOf previousVersion)
                    (data_version data)] in
            match triggerAlerts services resourceId_
                    (versionOf previousVersion) (data_version data) with
            | Ok _ => (Returned (Value resourceVersion), effects)
            | Throw e => (ThrownError e, effects)
            end
      | _ => (ThrownTypeError, [::])
      end
  end.

End Service.

End Creation.

(* The resourceVersion table in memory, for create: the row written by
   prisma.create carries the data it was given, under a new id. *)
Module InMemoryCreation.

Import Creation.

Definition rowOf (newId : string) (d : RowData) : ResourceVersion :=
  mkResourceVersion newId (row_resource d) (row_version d) (row_createdAt d).

Definition latest (rows : seq ResourceVersion) (resourceId_ : string) :
  nullable ResourceVersion :=
  if InMemory.findMany rows resourceId_ is r :: _ then Value r else Null.

(* The collaborators of create over the table rows; what is not the
   table is left as given. *)
Definition services (others : Services) (newId : string)
    (rows : seq ResourceVersion) : Services :=
  mkServices (valid others) (resourceFindOne others)
    (entityGetLatestVersions others) (blockGetLatestVersions others)
    (latest rows) (rowOf newId) (triggerAlerts others) (now others).

Definition write (newId : string) (rows : seq ResourceVersion) (e : Effect) :
  seq ResourceVersion :=
  if e is PrismaCreate d then rcons rows (rowOf newId d) else rows.

(* create against the table: its completion and the table afterwards. *)
Definition create (ServiceTemplate : string) (others : Services)
    (newId : string) (rows : seq ResourceVersion) (data : CreateData) :
  Completion (nullable ResourceVersion) * seq ResourceVersion :=
  let (completion, effects) :=
    Creation.create ServiceTemplate (InMemory.prisma rows)
      (services others newId rows) data in
  (completion, foldl (write newId) rows effects).

(* When create writes a row to the table: its version is non-empty,
   accepted by valid and not stored for the resource, and the resource
   is a service template. *)
Definition guard (ServiceTemplate : string) (others : Services)
    (rows : seq ResourceVersion) (data : CreateData) : bool :=
  [&& data_version data != EmptyString,
      truthyString (valid others (data_version data)),
      ~~ has (fun r => (resourceId r == data_resource data)
                         && (version r == data_version data)) rows
    & if resourceFindOne others (data_resource data) is Value resource
      then resourceType resource == ServiceTemplate
      else false].

(* No two rows carry the same resource and version, and every stored
   version is accepted by valid. *)
Definition wellFormed (valid_ : string -> option string)
    (rows : seq ResourceVersion) : bool :=
  uniq [seq (resourceId r, version r) | r <- rows]
  && all (fun r => truthyString (valid_ (version r))) rows.

End InMemoryCreation.

Module SampleCreation.

Import Creation.

(* semver's valid on plain versions and on strings that are no
   versions: the version, or null. *)
Definition valid (v : string) : option string :=
  if Semver.plain v then Some v else None.

Definition ServiceTemplate : string := "ServiceTemplate".

Definition resources (resourceId_ : string) : nullable Resource :=
  if resourceId_ == "r1"%string then Value (mkResource ServiceTemplate)
  else if resourceId_ == "r2"%string then Value (mkResource "Service")
  else Null.

Definition others : Services :=
  mkServices valid resources
    (fun _ => [:: mkEntityVersion "ev-1"; mkEntityVersion "ev-2"])
    (fun _ => Example.source)
    (fun _ => Null) (fun _ => Example.rv10) (fun _ _ _ => Ok tt) 500.

(* The same collaborators with an alert service that rejects. *)
Definition alertFailure : Error := mkError "alerts unavailable".

Definition failingAlerts : Services :=
  mkServices valid resources
    (fun _ => [:: mkEntityVersion "ev-1"; mkEntityVersion "ev-2"])
    (fun _ => Example.source)
    (fun _ => Null) (fun _ => Example.rv10)
    (fun _ _ _ => Throw alertFailure) 500.

Definition newVersion : CreateData := mkCreateData "2.0.0" "r1".
Definition orphanVersion : CreateData := mkCreateData "2.0.0" "r9".

End SampleCreation.

(* --------------------------------------------------------------------- *)
(*  GithubService.getGitInstallationUrl (lines 108-110)                   *)
(* --------------------------------------------------------------------- *)

(* String.prototype.replace with a string pattern and a string
   replacement, on strings as sequences of code units. *)
Module JsString.

Fixpoint dropString (n : nat) (s : string) : string :=
  match n, s with
  | n'.+1, String _ s' => dropString n' s'
  | _, _ => s
  end.

(* The text before and after the first occurrence of the pattern, none
   when the pattern does not occur. *)
Fixpoint splitFirst (pattern s : string) : option (string * string) :=
  if String.prefix pattern s
  then Some (EmptyString, dropString (String.length pattern) s)
  else match s with
       | EmptyString => None
       | String c s' =>
           if splitFirst pattern s' is Some (before, after)
           then Some (String c before, after)
           else None
       end.

(* GetSubstitution without capture groups: $$ is a dollar sign, $& the
   matched text, $` the text before the match, $' the text after it; a
   dollar sign followed by anything else stands for itself. *)
Fixpoint getSubstitution (matched before after template : string) : string :=
  match template with
  | EmptyString => EmptyString
  | String "$" (String "$" rest) =>
      String "$" (getSubstitution matched before after rest)
  | String "$" (String "&" rest) =>
      String.append matched (getSubstitution matched before after rest)
  | String "$" (String "`" rest) =>
      String.append before (getSubstitution matched before after rest)
  | String "$" (String "'" rest) =>
      String.append after (getSubstitution matched before after rest)
  | String c rest => String c (getSubstitution matched before after rest)
  end.

Definition replace (s pattern replacement : string) : string :=
  if splitFirst pattern s is Some (before, after)
  then String.append before
         (String.append (getSubstitution pattern before after replacement) after)
  else s.

(* The pattern first occurs right after the text before: no way of
   cutting before ++ pattern ++ after around the pattern has a shorter
   first part. *)
Definition firstOccurrence (pattern before after : string) : Prop :=
  forall before' after',
    String.append before (String.append pattern after)
    = String.append before' (String.append pattern after') ->
    String.length before <= String.length before'.

(* The string holds no dollar sign. *)
Fixpoint dollarFree (s : string) : bool :=
  match s with
  | EmptyString => true
  | String c s' => (c != "$"%char) && dollarFree s'
  end.

End JsString.

Module Github.

Definition statePlaceholder : string := "{state}".

(* this.gitInstallationUrl.replace("{state}", workspaceId) *)
Definition getGitInstallationUrl (gitInstallationUrl workspaceId : string) :
  string :=
  JsString.replace gitInstallationUrl statePlaceholder workspaceId.

End Github.

Module SampleUrl.

Definition before : string := "https://github.com/apps/x/installations/new?state=".
Definition after : string := "&next={state}".
Definition plain : string := "https://github.com/apps/x/installations/new".

End SampleUrl.

(* --------------------------------------------------------------------- *)
(*  GithubService: the two mappings of listed repositories                *)
(*  (lines 215-259)                                                       *)
(* --------------------------------------------------------------------- *)

Module GithubRepos.

Import Creation.

(* repo.permissions of the REST response: only admin is read. *)
Record Permissions : Type := mkPermissions { admin : bool }.

(* An item of results.data.repositories, with the fields read;
   permissions is optional in the response type. *)
Record ApiRepository : Type := mkApiRepository {
  name : string;
  html_url : string;
  private_ : bool;
  full_name : string;
  permissions : option Permissions;
  default_branch : string
}.

(* results.data *)
Record Listing : Type := mkListing {
  total_count : Z;
  repositories : seq ApiRepository
}.

(* dto/RemoteGitRepository; defaultBranch is undefined when the mapping
   does not set it. *)
Record RemoteGitRepository : Type := mkRemoteGitRepository {
  repo_name : string;
  url : string;
  repo_private : bool;
  fullName : string;
  repo_admin : bool;
  defaultBranch : option string
}.

(* dto/RemoteGitRepos *)
Record RemoteGitRepos : Type := mkRemoteGitRepos {
  totalRepos : Z;
  repos : seq RemoteGitRepository;
  pageSize : Z;
  currentPage : Z
}.

(* repo.permissions?.admin || false *)
Definition adminOrFalse (repo : ApiRepository) : bool :=
  if permissions repo is Some p then admin p || false else false.

(* The callback of getOrganizationReposWithOctokit. *)
Definition toRemote (repo : ApiRepository) : RemoteGitRepository :=
  mkRemoteGitRepository (name repo) (html_url repo) (private_ repo)
    (full_name repo) (adminOrFalse repo) (Some (default_branch repo)).

Definition getOrganizationReposWithOctokit (results : Listing) :
  seq RemoteGitRepository :=
  [seq toRemote repo | repo <- repositories results].

(* The callback of getOrganizationReposWithOctokitAndPagination:
   repo.permissions.admin is a property read on undefined when the
   repository carries no permissions. *)
Definition toRemotePaged (repo : ApiRepository) :
  Completion RemoteGitRepository :=
  if permissions repo is Some p
  then Returned (mkRemoteGitRepository (name repo) (html_url repo)
                   (private_ repo) (full_name repo) (admin p) None)
  else ThrownTypeError.

(* Array.prototype.map with a callback that may throw: the first throw
   ends the call. *)
Fixpoint mapCompletion {A B : Type} (f : A -> Completion B) (l : seq A) :
  Completion (seq B) :=
  match l with
  | [::] => Returned [::]
  | x :: l' =>
      match f x with
      | Returned y =>
          match mapCompletion f l' with
          | Returned ys => Returned (y :: ys)
          | ThrownError e => ThrownError e
          | ThrownTypeError => ThrownTypeError
          end
      | ThrownError e => ThrownError e
      | ThrownTypeError => ThrownTypeError
      end
  end.

(* request stands for octokit.request on the route
   GET /installation/repositories?per_page=limit&page=page; a limit or
   page that is not passed takes its default, 10 or 1. *)
Definition getOrganizationReposWithOctokitAndPagination
    (request : Z -> Z -> Listing) (limit page : option Z) :
  Completion RemoteGitRepos :=
  let limit_ := odflt 10%Z limit in
  let page_ := odflt 1%Z page in
  let results := request limit_ page_ in
  match mapCompletion toRemotePaged (repositories results) with
  | Returned repos_ =>
      Returned (mkRemoteGitRepos (total_count results) repos_ limit_ page_)
  | ThrownError e => ThrownError e
  | ThrownTypeError => ThrownTypeError
  end.

(* A mapped repository without its defaultBranch. *)
Definition withoutBranch (r : RemoteGitRepository) : RemoteGitRepository :=
  mkRemoteGitRepository (repo_name r) (url r) (repo_private r) (fullName r)
    (repo_admin r) None.

Definition samplePage (limit page : Z) : Listing :=
  mkListing 2
    [:: mkApiRepository "api" "https://github.com/o/api" true "o/api"
          (Some (mkPermissions true)) "main";
        mkApiRepository "web" "https://github.com/o/web" false "o/web"
          None "main"].

End GithubRepos.

(* --------------------------------------------------------------------- *)
(*  Array.prototype.find, indexOf                                         *)
(* --------------------------------------------------------------------- *)

Section ArrayFacts.

Variable T : Type.
Implicit Types (p : pred T) (s : seq T).

Lemma truthy_arrayFind p s : truthy (arrayFind p s) = has p s.
Proof. by elim: s => [|x s IH] //=; case: (p x). Qed.

Lemma arrayFind_notNull p s : arrayFind p s <> Null.
Proof. by elim: s => [|x s IH] //=; case: (p x). Qed.

Lemma arrayFind_none p s : ~~ has p s -> arrayFind p s = Undefined.
Proof. by elim: s => [|x s IH] //=; case: (p x). Qed.

(* The element found satisfies the callback and nothing before it does. *)
Lemma arrayFind_first p s x :
  arrayFind p s = Value x ->
  exists pre post, [/\ s = pre ++ x :: post, p x & ~~ has p pre].
Proof.
elim: s => [|y s IH] //=; case py: (p y).
  by case=> <-; exists [::], s.
move/IH=> [pre [post [-> px npre]]].
by exists (y :: pre), post; split=> //=; rewrite py.
Qed.

Lemma arrayFind_cat p pre x post :
  ~~ has p pre -> p x -> arrayFind p (pre ++ x :: post) = Value x.
Proof.
elim: pre => [|y pre IH] /=; first by move=> _ ->.
by rewrite negb_or => /andP [/negbTE -> npre] px; apply: IH.
Qed.

Lemma count_pmap (U : Type) (f : T -> option U) (a : pred U) s :
  count a (pmap f s) = count (fun x => oapp a false (f x)) s.
Proof. by elim: s => [|x s IH] //=; case: (f x) => [y|] /=; rewrite IH. Qed.

End ArrayFacts.

Section IndexOf.

Variable T : eqType.
Implicit Types (x : T) (s : seq T).

Lemma indexOfFrom_notin i x s : x \notin s -> indexOfFrom i x s = (-1)%Z.
Proof.
elim: s i => [|y s IH] i //=.
by rewrite inE negb_or eq_sym => /andP [/negbTE -> xs]; apply: IH.
Qed.

Lemma indexOf_notin x s : x \notin s -> indexOf x s = (-1)%Z.
Proof. exact: indexOfFrom_notin. Qed.

Lemma indexOf_head x s : ohead s = Some x -> indexOf x s = 0%Z.
Proof. by case: s => [|y s] //= [->]; rewrite /indexOf /= eqxx. Qed.

End IndexOf.

(* --------------------------------------------------------------------- *)
(*  Collections with one item per key                                     *)
(* --------------------------------------------------------------------- *)

Section UniqueKeys.

Variables (T : eqType) (K : eqType) (key : T -> K).

Lemma filter_key_uniq (s : seq T) (x : T) :
  uniq (map key s) -> x \in s -> [seq y <- s | key y == key x] = [:: x].
Proof.
elim: s => [|y s IH] //= /andP [ynotin us].
rewrite inE; case/orP => [/eqP ->|xs].
  rewrite eqxx; congr (_ :: _).
  apply/eqP; rewrite -[_ == _]negbK -has_filter; apply/hasPn => z zs.
  by apply: contra ynotin => /eqP <-; apply: map_f.
rewrite IH //; case: eqP => // kyx.
by move: ynotin; rewrite kyx map_f.
Qed.

Lemma count_key_uniq (s : seq T) (x : T) (q : pred T) :
  uniq (map key s) -> x \in s ->
  count (fun y => (key y == key x) && q y) s = q x.
Proof.
move=> us xs.
have -> : count (fun y => (key y == key x) && q y) s
          = count q [seq y <- s | key y == key x].
  by rewrite count_filter; apply: eq_count => y /=; rewrite andbC.
by rewrite filter_key_uniq //= addn0.
Qed.

Lemma count_key_absent (s : seq T) (k : K) (q : pred T) :
  ~~ has (fun y => key y == k) s ->
  count (fun y => (key y == k) && q y) s = 0.
Proof.
move=> /hasPn nk; rewrite -(count_pred0 s); apply: eq_in_count => y ys /=.
by rewrite (negbTE (nk y ys)).
Qed.

End UniqueKeys.

(* --------------------------------------------------------------------- *)
(*  What the two loops leave in the arrays                                *)
(* --------------------------------------------------------------------- *)

Section LoopFacts.

Import DiffLoops.

(* The first loop over the items l: updated and deleted grow at their
   ends, the three other arrays are as before. *)
Lemma foldl_sourceStep (l : seq BlockVersion) (st : State) :
  foldl sourceStep st l =
  mkState (sourceBlockVersions st) (targetBlockVersions st)
    (updated st ++ pmap (changedPair (targetBlockVersions st)) l)
    (deleted st ++ [seq s <- l | ~~ has (sameBlock s) (targetBlockVersions st)])
    (created st).
Proof.
elim: l st => [|s l IH] st /=; first by rewrite !cats0; case: st.
rewrite IH /sourceStep /changedPair -truthy_arrayFind.
case: (arrayFind _ _) => [||t] /=; rewrite ?cat_rcons //.
by case: (_ != _) => /=; rewrite ?cat_rcons.
Qed.

(* The second loop over the items l: only created grows. *)
Lemma foldl_targetStep (l : seq BlockVersion) (st : State) :
  foldl targetStep st l =
  mkState (sourceBlockVersions st) (targetBlockVersions st)
    (updated st) (deleted st)
    (created st ++ [seq t <- l | ~~ has (sameBlock t) (sourceBlockVersions st)]).
Proof.
elim: l st => [|t l IH] st /=; first by rewrite cats0; case: st.
rewrite IH /targetStep truthy_arrayFind.
by case: (has _ _) => /=; rewrite ?cat_rcons.
Qed.

Lemma runE (st : State) :
  run st =
  mkState (sourceBlockVersions st) (targetBlockVersions st)
    (updated st ++ pmap (changedPair (targetBlockVersions st))
                     (sourceBlockVersions st))
    (deleted st ++ [seq s <- sourceBlockVersions st
                   | ~~ has (sameBlock s) (targetBlockVersions st)])
    (created st ++ [seq t <- targetBlockVersions st
                   | ~~ has (sameBlock t) (sourceBlockVersions st)]).
Proof. by rewrite /run foldl_sourceStep /= foldl_targetStep. Qed.

End LoopFacts.

Lemma diffBlockVersionsE (source target : seq BlockVersion) :
  diffBlockVersions source target =
  mkDiff (pmap (changedPair target) source)
         [seq t <- target | ~~ has (sameBlock t) source]
         [seq s <- source | ~~ has (sameBlock s) target].
Proof. by rewrite /diffBlockVersions runE. Qed.

(* --------------------------------------------------------------------- *)
(*  The pairs pushed to updated                                           *)
(* --------------------------------------------------------------------- *)

Lemma changedPair_some (target : seq BlockVersion) (s : BlockVersion)
    (p : ResourceVersionsDiffBlock) :
  changedPair target s = Some p ->
  [/\ sourceBlockVersion p = s,
      arrayFind (sameBlock s) target = Value (targetBlockVersion p)
    & versionNumber s != versionNumber (targetBlockVersion p)].
Proof.
rewrite /changedPair; case: (arrayFind _ _) => [||t] //.
by case: ifP => // neq [<-].
Qed.

Lemma mem_updated (source target : seq BlockVersion)
    (p : ResourceVersionsDiffBlock) :
  p \in updatedBlocks (diffBlockVersions source target) ->
  [/\ sourceBlockVersion p \in source,
      arrayFind (sameBlock (sourceBlockVersion p)) target
        = Value (targetBlockVersion p)
    & versionNumber (sourceBlockVersion p)
        != versionNumber (targetBlockVersion p)].
Proof.
rewrite diffBlockVersionsE /= mem_pmap => /mapP [s ss /esym eq].
by case: (changedPair_some eq) => eqs found neq; split; rewrite ?eqs.
Qed.

Lemma updated_mem (source target : seq BlockVersion) (s t : BlockVersion) :
  s \in source -> arrayFind (sameBlock s) target = Value t ->
  versionNumber s != versionNumber t ->
  mkDiffBlock s t \in updatedBlocks (diffBlockVersions source target).
Proof.
move=> ss found neq; rewrite diffBlockVersionsE /= mem_pmap.
by apply/mapP; exists s => //; rewrite /changedPair found neq.
Qed.

Lemma arrayFind_mem (target : seq BlockVersion) (s t : BlockVersion) :
  arrayFind (sameBlock s) target = Value t ->
  t \in target /\ blockId t = blockId s.
Proof.
move=> found; case: (arrayFind_first found) => pre [post [-> same _]].
by split; [rewrite mem_cat inE eqxx orbT | apply/eqP].
Qed.

Lemma arrayFind_firstWithBlock (target : seq BlockVersion) (s t : BlockVersion) :
  arrayFind (sameBlock s) target = Value t <-> firstWithBlock s target t.
Proof.
split.
  move=> found; case: (arrayFind_first found) => pre [post [-> same npre]].
  by exists pre, post; split; [| apply/eqP | rewrite all_predC].
move=> [pre [post [-> same allpre]]].
by apply: arrayFind_cat; rewrite -?all_predC // /sameBlock same.
Qed.

(* With one item per block id, find returns the item with that id. *)
Lemma arrayFind_uniq (target : seq BlockVersion) (s t : BlockVersion) :
  uniq (map blockId target) -> t \in target -> blockId t = blockId s ->
  arrayFind (sameBlock s) target = Value t.
Proof.
move=> ut tt same.
have: has (sameBlock s) target by apply/hasP; exists t => //; apply/eqP.
rewrite -truthy_arrayFind; case found: (arrayFind _ _) => [||t'] // _.
case: (arrayFind_mem found) => t't same'.
have: t' \in [seq y <- target | blockId y == blockId t].
  by rewrite mem_filter t't same' same eqxx.
by rewrite filter_key_uniq // inE => /eqP ->.
Qed.

(* --------------------------------------------------------------------- *)
(*  Occurrence counts under the one-item-per-block-id invariant           *)
(* --------------------------------------------------------------------- *)

Lemma count_mem_filter (T : eqType) (a : pred T) (l : seq T) (x : T) :
  uniq l -> x \in l -> count_mem x [seq y <- l | a y] = a x.
Proof.
move=> ul xl; rewrite count_filter.
have -> : count (predI (pred1 x) a) l = count (fun y => (id y == id x) && a y) l.
  by apply: eq_count.
by apply: count_key_uniq; rewrite // map_id.
Qed.

Section Occurrences.

Variables source target : seq BlockVersion.
Hypothesis uniq_source : uniq (map blockId source).
Hypothesis uniq_target : uniq (map blockId target).

Let d := diffBlockVersions source target.

Lemma occDeletedE (s : BlockVersion) :
  s \in source -> occDeleted d s = ~~ has (sameBlock s) target.
Proof.
move=> ss; rewrite /occDeleted /d diffBlockVersionsE /=.
by rewrite count_mem_filter // (map_uniq uniq_source).
Qed.

Lemma occCreatedE (t : BlockVersion) :
  t \in target -> occCreated d t = ~~ has (sameBlock t) source.
Proof.
move=> tt; rewrite /occCreated /d diffBlockVersionsE /=.
by rewrite count_mem_filter // (map_uniq uniq_target).
Qed.

Lemma occUpdatedSourceE (s : BlockVersion) :
  s \in source -> occUpdatedSource d s = isSome (changedPair target s).
Proof.
move=> ss; rewrite /occUpdatedSource /d diffBlockVersionsE /= count_pmap.
have -> : count (fun x => oapp (fun p => sourceBlockVersion p == s) false
                           (changedPair target x)) source
          = count (fun x => (id x == id s) && isSome (changedPair target x)) source.
  apply: eq_count => x /=.
  case eq: (changedPair target x) => [p|] /=; last by rewrite andbF.
  by case: (changedPair_some eq) => -> _ _; rewrite andbT.
by apply: count_key_uniq; rewrite // map_id (map_uniq uniq_source).
Qed.

Lemma targetHalfE (t x : BlockVersion) :
  t \in target ->
  oapp (fun p => targetBlockVersion p == t) false (changedPair target x)
  = (blockId x == blockId t) && (versionNumber x != versionNumber t).
Proof.
move=> tt; case: (eqVneq (blockId x) (blockId t)) => [same|diff] /=.
  rewrite /changedPair (@arrayFind_uniq target x t) //.
  by case: (_ != _) => //=; apply: eqxx.
case eq: (changedPair target x) => [p|] //=.
case: (changedPair_some eq) => _ found _.
case: (arrayFind_mem found) => _ same.
by apply: contraNF diff => /eqP <-; rewrite same.
Qed.

Lemma occUpdatedTargetE (t : BlockVersion) :
  t \in target ->
  occUpdatedTarget d t
  = has (fun s => sameBlock t s && (versionNumber s != versionNumber t)) source.
Proof.
move=> tt; rewrite /occUpdatedTarget /d diffBlockVersionsE /= count_pmap.
rewrite (eq_count (fun x => targetHalfE x tt)).
case hs: (has (sameBlock t) source).
  case/hasP: hs => s0 s0s /eqP same.
  rewrite -same count_key_uniq //.
  case neq: (_ != _); apply/esym/eqP; rewrite ?eqb1 ?eqb0.
    by apply/hasP; exists s0 => //; rewrite /sameBlock neq -same eqxx.
  apply/hasPn => x xs; rewrite negb_and -implybE; apply/implyP => samex.
  have: x \in [seq y <- source | blockId y == blockId s0].
    by rewrite mem_filter xs andbT same.
  by rewrite filter_key_uniq // inE => /eqP ->; rewrite neq.
rewrite count_key_absent ?hs //; apply/esym/eqP; rewrite eqb0.
apply: contraFN hs => /hasP [x xs /andP [samex _]].
by apply/hasP; exists x.
Qed.

End Occurrences.

(* --------------------------------------------------------------------- *)
(*  The scenarios of the specification, run on the loops                  *)
(* --------------------------------------------------------------------- *)

Example scenario_changed :
  diffBlockVersions [:: Example.a1; Example.b1] [:: Example.a2; Example.c1]
  = mkDiff [:: mkDiffBlock Example.a1 Example.a2] [:: Example.c1] [:: Example.b1].
Proof. by []. Qed.

Example scenario_unchanged :
  diffBlockVersions [:: Example.x3] [:: Example.x3] = emptyDiff.
Proof. by []. Qed.

Example scenario_sorted_versions :
  sortedVersionsOf Semver.sort Example.prisma "r1"
  = Ok [:: "1.0.0"; "1.1.0"; "1.2.0"; "1.10.0"]%string.
Proof. by vm_compute. Qed.

Example scenario_previous :
  getPreviousVersion Semver.sort Example.prisma "r1" "1.10.0"
  = Ok (Value Example.rv12).
Proof. by vm_compute. Qed.

(* ===================================================================== *)
(*  Properties of the diff                                                *)
(* ===================================================================== *)

(** C4: with an empty source collection every target block version is
    reported as created, in the order of the target collection, and
    nothing is reported as updated or deleted. *)
Theorem diff_empty_source (Y : seq BlockVersion) :
  diffBlockVersions [::] Y = mkDiff [::] Y [::].
Proof. by rewrite diffBlockVersionsE /= filter_predT. Qed.

(** C5: with an empty target collection every source block version is
    reported as deleted, in the order of the source collection, and
    nothing is reported as created or updated. *)
Theorem diff_empty_target (X : seq BlockVersion) :
  diffBlockVersions X [::] = mkDiff [::] [::] X.
Proof.
rewrite diffBlockVersionsE /= filter_predT; congr mkDiff.
by elim: X => [|x X IH].
Qed.

Lemma changedPair_source (target : seq BlockVersion) :
  ocancel (changedPair target) sourceBlockVersion.
Proof.
move=> s; case eq: (changedPair target s) => [p|] //=.
by case: (changedPair_some eq).
Qed.

(** C6: each output keeps the iteration order of the collection it is
    drawn from. deletedBlocks and the source halves of updatedBlocks are
    the source collection with some items left out, createdBlocks is the
    target collection with some items left out; nothing is reordered. *)
Theorem diff_order (source target : seq BlockVersion) :
  let d := diffBlockVersions source target in
  [/\ deletedBlocks d = [seq s <- source | ~~ has (sameBlock s) target],
      [seq sourceBlockVersion p | p <- updatedBlocks d]
        = [seq s <- source | changedPair target s],
      createdBlocks d = [seq t <- target | ~~ has (sameBlock t) source]
    & [/\ subseq (deletedBlocks d) source,
          subseq [seq sourceBlockVersion p | p <- updatedBlocks d] source
        & subseq (createdBlocks d) target]].
Proof.
move=> d; rewrite /d diffBlockVersionsE /=.
rewrite (pmap_filter (@changedPair_source target)).
by split=> //; split; apply: filter_subseq.
Qed.

(* The two loops write the three output arrays only: whatever the
   arrays hold when the loops start, the input arrays are the same
   afterwards. *)
Lemma run_keeps_inputs (st : DiffLoops.State) :
  DiffLoops.sourceBlockVersions (DiffLoops.run st)
    = DiffLoops.sourceBlockVersions st
  /\ DiffLoops.targetBlockVersions (DiffLoops.run st)
     = DiffLoops.targetBlockVersions st.
Proof. by rewrite !runE. Qed.

(** C1: when no two items of the source collection share a block id and
    no two items of the target collection do, every source item is in
    exactly one of three situations: it occurs once in deletedBlocks and
    in no updatedBlocks pair (no target item has its block id); it is the
    source half of exactly one updatedBlocks pair and is not in
    deletedBlocks (the target item with its block id has another
    versionNumber); or it is in neither (that target item has the same
    versionNumber). The same holds for every target item with
    createdBlocks and the target halves of updatedBlocks. The outputs
    hold nothing but items of the inputs. *)
Theorem diff_partition (source target : seq BlockVersion) :
  uniq [seq blockId s | s <- source] ->
  uniq [seq blockId t | t <- target] ->
  let d := diffBlockVersions source target in
  [/\ forall s, s \in source ->
        [\/ [/\ occDeleted d s = 1, occUpdatedSource d s = 0
              & ~~ has (sameBlock s) target],
            [/\ occDeleted d s = 0, occUpdatedSource d s = 1
              & exists2 t, t \in target
                  & blockId t = blockId s
                    /\ versionNumber s <> versionNumber t]
          | [/\ occDeleted d s = 0, occUpdatedSource d s = 0
              & exists2 t, t \in target
                  & blockId t = blockId s
                    /\ versionNumber s = versionNumber t]],
      forall t, t \in target ->
        [\/ [/\ occCreated d t = 1, occUpdatedTarget d t = 0
              & ~~ has (sameBlock t) source],
            [/\ occCreated d t = 0, occUpdatedTarget d t = 1
              & exists2 s, s \in source
                  & blockId s = blockId t
                    /\ versionNumber s <> versionNumber t]
          | [/\ occCreated d t = 0, occUpdatedTarget d t = 0
              & exists2 s, s \in source
                  & blockId s = blockId t
                    /\ versionNumber s = versionNumber t]]
    & [/\ {subset deletedBlocks d <= source},
          {subset createdBlocks d <= target}
        & forall p, p \in updatedBlocks d ->
            sourceBlockVersion p \in source /\ targetBlockVersion p \in target]].
Proof.
move=> us ut d; split.
- move=> s ss; rewrite /d (occDeletedE target us ss) (occUpdatedSourceE target us ss).
  rewrite -truthy_arrayFind /changedPair.
  case found: (arrayFind (sameBlock s) target) => [||t] /=.
  + by constructor 1.
  + by constructor 1.
  + case: (arrayFind_mem found) => tt same.
    case neq: (versionNumber s != versionNumber t) => /=.
      by constructor 2; split=> //; exists t => //; split=> //; apply/eqP.
    constructor 3; split=> //; exists t => //; split=> //.
    by apply/eqP; rewrite -[_ == _]negbK neq.
- move=> t tt; rewrite /d (occCreatedE source ut tt) (occUpdatedTargetE us ut tt).
  case hs: (has (sameBlock t) source) => /=.
  + case hc: (has _ source) => /=.
      case/hasP: hc => s ss /andP [/eqP same /eqP neq].
      by constructor 2; split=> //; exists s.
    case/hasP: hs => s ss sames.
    constructor 3; split=> //; exists s => //; split; first exact/eqP.
    apply/eqP; rewrite -[_ == _]negbK; apply/negP => neq.
    by move/hasP: hc; apply; exists s => //; rewrite sames neq.
  + constructor 1; split=> //; apply/eqP; rewrite eqb0.
    apply: contraFN hs => /hasP [s ss /andP [sames _]].
    by apply/hasP; exists s.
- split.
  + by move=> s; rewrite /d diffBlockVersionsE /= mem_filter => /andP [].
  + by move=> t; rewrite /d diffBlockVersionsE /= mem_filter => /andP [].
  + move=> p /mem_updated [ps found _]; split=> //.
    by case: (arrayFind_mem found).
Qed.

Lemma diff_partition_witness :
  [/\ uniq [seq blockId s | s <- Example.source],
      uniq [seq blockId t | t <- Example.target]
    & forall p,
        p \in updatedBlocks (diffBlockVersions Example.source Example.target) ->
        sourceBlockVersion p \in Example.source
        /\ targetBlockVersion p \in Example.target].
Proof.
split; [reflexivity | reflexivity |].
by case: (@diff_partition Example.source Example.target erefl erefl) => _ _ [].
Defined.

(* With one item per block id, two items that share a block id are the
   same item, so their version numbers agree. *)
Lemma versionsAgree_uniq (X : seq BlockVersion) :
  uniq [seq blockId x | x <- X] -> versionsAgree X.
Proof.
move=> uX; apply/allP => a aX; apply/allP => b bX; apply/implyP => /eqP same.
have: b \in [seq y <- X | blockId y == blockId a] by rewrite mem_filter bX same eqxx.
by rewrite filter_key_uniq // inE => /eqP ->.
Qed.

(** C2: let the block ids be unique within the source collection and
    within the target collection, and let a source item s and a target
    item t share a block id. If their versionNumber values differ, the
    pair (s, t) is in updatedBlocks. If their versionNumber values are
    equal, the pair appears in none of the three outputs: neither s nor
    t is in deletedBlocks or in createdBlocks, and neither is a half of
    any updatedBlocks pair. *)
Theorem same_block_pair_fate (source target : seq BlockVersion)
    (s t : BlockVersion) :
  uniq [seq blockId x | x <- source] ->
  uniq [seq blockId x | x <- target] ->
  s \in source -> t \in target -> blockId s = blockId t ->
  let d := diffBlockVersions source target in
  (versionNumber s <> versionNumber t -> mkDiffBlock s t \in updatedBlocks d)
  /\ (versionNumber s = versionNumber t ->
      [/\ s \notin deletedBlocks d /\ s \notin createdBlocks d,
          t \notin deletedBlocks d /\ t \notin createdBlocks d,
          occUpdatedSource d s = 0
        & occUpdatedTarget d t = 0]).
Proof.
move=> us ut ss tt same d.
have found : arrayFind (sameBlock s) target = Value t.
  exact: arrayFind_uniq.
have hasT : has (sameBlock s) target.
  by apply/hasP; exists t => //; rewrite /sameBlock same.
have hasS : has (sameBlock t) source.
  by apply/hasP; exists s => //; rewrite /sameBlock same.
have hasTt : has (sameBlock t) target.
  by apply/hasP; exists t => //; apply: eqxx.
have hasSs : has (sameBlock s) source.
  by apply/hasP; exists s => //; apply: eqxx.
split; first by move=> /eqP neq; apply: updated_mem.
move=> eqv; split.
- by rewrite /d diffBlockVersionsE /= !mem_filter hasT hasSs.
- by rewrite /d diffBlockVersionsE /= !mem_filter hasTt hasS.
- by rewrite /d (occUpdatedSourceE target us ss) /changedPair found eqv eqxx.
- rewrite /d (occUpdatedTargetE us ut tt); apply/eqP; rewrite eqb0.
  apply/hasPn => x xs; rewrite negb_and negbK -implybE; apply/implyP => samex.
  have: x \in [seq y <- source | blockId y == blockId s].
    by rewrite mem_filter xs andbT same.
  by rewrite filter_key_uniq // inE => /eqP ->; rewrite eqv.
Qed.

Lemma same_block_pair_fate_witness :
  [/\ uniq [seq blockId x | x <- Example.source],
      uniq [seq blockId x | x <- Example.target],
      Example.a1 \in Example.source,
      Example.a2 \in Example.target
    & blockId Example.a1 = blockId Example.a2]
  /\ (versionNumber Example.a1 <> versionNumber Example.a2
      /\ mkDiffBlock Example.a1 Example.a2
           \in updatedBlocks (diffBlockVersions Example.source Example.target)).
Proof.
have neq : versionNumber Example.a1 <> versionNumber Example.a2 by [].
split; first by split; reflexivity.
split; first exact: neq.
have [changed _] :=
  @same_block_pair_fate Example.source Example.target Example.a1 Example.a2
    erefl erefl erefl erefl erefl.
exact: (changed neq).
Defined.

Lemma pmap_none (A B : eqType) (f : A -> option B) (l : seq A) :
  {in l, forall x, f x = None} -> pmap f l = [::].
Proof.
elim: l => [|x l IH] //= fl; rewrite fl ?inE ?eqxx //; apply: IH => y yl.
by apply: fl; rewrite inE yl orbT.
Qed.

(* A collection in which items that share a block id share the
   versionNumber has an empty diff with itself. *)
Lemma diffBlockVersions_agree (X : seq BlockVersion) :
  versionsAgree X -> diffBlockVersions X X = emptyDiff.
Proof.
move=> agree; rewrite diffBlockVersionsE /emptyDiff.
have self x : x \in X -> has (sameBlock x) X.
  by move=> xX; apply/hasP; exists x => //; apply: eqxx.
have none : [seq t <- X | ~~ has (sameBlock t) X] = [::].
  rewrite -(filter_pred0 X); apply: eq_in_filter => x xX /=.
  by rewrite self.
rewrite none; congr mkDiff; apply: pmap_none => s sX; rewrite /changedPair.
case found: (arrayFind _ _) => [||t] //.
case: (arrayFind_mem found) => tX same.
move/allP/(_ s sX)/allP/(_ t tX): agree.
by rewrite same eqxx /= => ->.
Qed.

(** C3: for every collection X with one item per block id, diffing X
    against itself yields createdBlocks, updatedBlocks and
    deletedBlocks all empty. *)
Theorem diff_self_empty (X : seq BlockVersion) :
  uniq [seq blockId x | x <- X] -> diffBlockVersions X X = emptyDiff.
Proof.
move=> uX; rewrite diffBlockVersionsE /emptyDiff.
have self x : x \in X -> arrayFind (sameBlock x) X = Value x.
  by move=> xX; apply: arrayFind_uniq.
have none : [seq t <- X | ~~ has (sameBlock t) X] = [::].
  rewrite -(filter_pred0 X); apply: eq_in_filter => x xX /=.
  by rewrite -truthy_arrayFind self.
rewrite none; congr mkDiff; apply: pmap_none => s sX.
by rewrite /changedPair self // eqxx.
Qed.

Lemma diff_self_empty_witness :
  uniq [seq blockId x | x <- Example.source]
  /\ diffBlockVersions Example.source Example.source = emptyDiff.
Proof.
split; [reflexivity | exact: (@diff_self_empty Example.source erefl)].
Defined.

(* Outside that invariant, with a block id repeated on one side, every
   item is compared with the first item of its block id on the other
   side. *)
Example repeated_ids_first_only :
  diffBlockVersions [:: Example.a1] Example.twice = emptyDiff
  /\ diffBlockVersions Example.twice Example.twice
     = mkDiff [:: mkDiffBlock Example.a2 Example.a1] [::] [::]
  /\ diffBlockVersions Example.twiceSame Example.twiceSame = emptyDiff.
Proof. by []. Qed.

(* ===================================================================== *)
(*  Properties of the service methods                                     *)
(* ===================================================================== *)

(** C8: getPreviousVersion returns null both when the requested version
    is absent from the sorted version list of the resource and when it
    is the first (smallest) entry of that list: the two situations have
    the same outcome. *)
Theorem getPreviousVersion_null (sort : seq string -> Result (seq string))
    (prisma : PrismaResourceVersion) (resourceId_ version_ : string)
    (sorted : seq string) :
  sortedVersionsOf sort prisma resourceId_ = Ok sorted ->
  version_ \notin sorted \/ ohead sorted = Some version_ ->
  getPreviousVersion sort prisma resourceId_ version_ = Ok Null.
Proof.
rewrite /getPreviousVersion /sortedVersionsOf => -> [absent|first].
  by rewrite indexOf_notin.
by rewrite indexOf_head.
Qed.

Lemma getPreviousVersion_null_witness :
  [/\ sortedVersionsOf Semver.sort Example.prisma "r1"
        = Ok [:: "1.0.0"; "1.1.0"; "1.2.0"; "1.10.0"]%string,
      "2.0.0"%string \notin [:: "1.0.0"; "1.1.0"; "1.2.0"; "1.10.0"]%string,
      ohead [:: "1.0.0"; "1.1.0"; "1.2.0"; "1.10.0"]%string
        = Some "1.0.0"%string,
      getPreviousVersion Semver.sort Example.prisma "r1" "2.0.0" = Ok Null
    & getPreviousVersion Semver.sort Example.prisma "r1" "1.0.0" = Ok Null].
Proof.
have sortedE :
  sortedVersionsOf Semver.sort Example.prisma "r1"
  = Ok [:: "1.0.0"; "1.1.0"; "1.2.0"; "1.10.0"]%string.
  by vm_compute.
have absent :
  "2.0.0"%string \notin [:: "1.0.0"; "1.1.0"; "1.2.0"; "1.10.0"]%string.
  by vm_compute.
have first :
  ohead [:: "1.0.0"; "1.1.0"; "1.2.0"; "1.10.0"]%string = Some "1.0.0"%string.
  by vm_compute.
split; [exact: sortedE | exact: absent | exact: first | |].
  exact: (getPreviousVersion_null sortedE (or_introl absent)).
exact: (getPreviousVersion_null sortedE (or_intror first)).
Defined.

Section CompareResourceVersions.

Variable sort : seq string -> Result (seq string).
Variable prisma : PrismaResourceVersion.
Variable blockService : BlockService.

(* Once the source side has been read and the target resource version
   is found, the method returns the diff of the two collections. *)
Lemma compareResourceVersions_found (w : CompareResourceVersionsWhere)
    (source : seq BlockVersion) (targetResourceVersion : ResourceVersion) :
  sourceBlockVersionsOf sort prisma blockService w = Ok source ->
  findFirst prisma (resource_id w) (targetVersion w)
    = Value targetResourceVersion ->
  compareResourceVersions sort prisma blockService w
  = Ok (diffBlockVersions source
          (getBlockVersionsByResourceVersions blockService
             (rv_id targetResourceVersion))).
Proof. by rewrite /compareResourceVersions => -> ->. Qed.

Lemma compareResourceVersions_missing (w : CompareResourceVersionsWhere) :
  ~~ raises (sourceBlockVersionsOf sort prisma blockService w) ->
  ~~ truthy (findFirst prisma (resource_id w) (targetVersion w)) ->
  compareResourceVersions sort prisma blockService w
  = Throw (mkError (notFoundMessage w)).
Proof.
rewrite /compareResourceVersions.
by case: (sourceBlockVersionsOf _ _ _ _) => //= source _; case: (findFirst _ _ _).
Qed.

(* The source side throws exactly when it goes through
   getPreviousVersion and the sort throws. *)
Lemma sourceBlockVersionsOf_raises (w : CompareResourceVersionsWhere) :
  raises (sourceBlockVersionsOf sort prisma blockService w)
  = ~~ truthyString (sourceVersion w)
    && raises (sortedVersionsOf sort prisma (resource_id w)).
Proof.
rewrite /sourceBlockVersionsOf /resolveSource /getPreviousVersion.
rewrite /sortedVersionsOf.
case: (truthyString _) => /=; first by case: (findFirst _ _ _).
case: (sort _) => //= sorted.
case: (_ =? _)%Z => //; case: (_ =? _)%Z => //.
by case: (arrayFind _ _).
Qed.

Lemma raisesE (w : CompareResourceVersionsWhere) :
  raises (compareResourceVersions sort prisma blockService w)
  = (~~ truthyString (sourceVersion w)
     && raises (sortedVersionsOf sort prisma (resource_id w)))
    || ~~ truthy (findFirst prisma (resource_id w) (targetVersion w)).
Proof.
rewrite -sourceBlockVersionsOf_raises /compareResourceVersions.
case: (sourceBlockVersionsOf _ _ _ _) => //= source.
by case: (findFirst _ _ _).
Qed.

(* With a source version given, the source side is read without any
   call of the sort. *)
Lemma sourceBlockVersionsOf_given (w : CompareResourceVersionsWhere) :
  truthyString (sourceVersion w) ->
  sourceBlockVersionsOf sort prisma blockService w
  = Ok (if findFirst prisma (resource_id w)
             (odflt EmptyString (sourceVersion w)) is Value sourceResourceVersion
        then getBlockVersionsByResourceVersions blockService
               (rv_id sourceResourceVersion)
        else [::]).
Proof.
rewrite /sourceBlockVersionsOf /resolveSource => ->.
by case: (findFirst _ _ _).
Qed.

(* Without one, it is read from the row getPreviousVersion returns. *)
Lemma sourceBlockVersionsOf_previous (w : CompareResourceVersionsWhere)
    (previous : nullable ResourceVersion) :
  ~~ truthyString (sourceVersion w) ->
  getPreviousVersion sort prisma (resource_id w) (targetVersion w)
    = Ok previous ->
  sourceBlockVersionsOf sort prisma blockService w
  = Ok (if previous is Value sourceResourceVersion
        then getBlockVersionsByResourceVersions blockService
               (rv_id sourceResourceVersion)
        else [::]).
Proof.
rewrite /sourceBlockVersionsOf /resolveSource => /negbTE -> ->.
by case: previous.
Qed.

End CompareResourceVersions.

(* On a table held in memory, findFirst finds a row exactly when one
   carries the resource id and the version. *)
Lemma InMemory_findFirst_truthy (rows : seq ResourceVersion)
    (resourceId_ version_ : string) :
  truthy (InMemory.findFirst rows resourceId_ version_)
  = has (fun r => (resourceId r == resourceId_) && (version r == version_)) rows.
Proof.
rewrite -truthy_arrayFind /InMemory.findFirst.
by case: (arrayFind _ _).
Qed.

Lemma InMemory_raises (sort : seq string -> Result (seq string))
    (rows : seq ResourceVersion) (blockService : BlockService)
    (w : CompareResourceVersionsWhere) :
  raises (compareResourceVersions sort (InMemory.prisma rows) blockService w)
  = (~~ truthyString (sourceVersion w)
     && raises (sortedVersionsOf sort (InMemory.prisma rows) (resource_id w)))
    || ~~ has (fun r => (resourceId r == resource_id w)
                          && (version r == targetVersion w)) rows.
Proof. by rewrite raisesE InMemory_findFirst_truthy. Qed.

(** C9: duplicate block ids raise nothing. For every pair of
    collections, with or without repeated block ids: whenever the block
    service returns them for the source and the target resource version
    and the target resource version is found, the method returns their
    diff and raises no error. Every pair of updatedBlocks holds, as its
    target half, the first item of the target collection whose block id
    is that of its source half; so source items that share a block id
    are all paired with the same target item. *)
Theorem diff_duplicates_first_match (source target : seq BlockVersion) :
  let d := diffBlockVersions source target in
  [/\ forall (sort : seq string -> Result (seq string))
             (prisma : PrismaResourceVersion)
             (blockService : BlockService) (w : CompareResourceVersionsWhere)
             (targetResourceVersion : ResourceVersion),
        findFirst prisma (resource_id w) (targetVersion w)
          = Value targetResourceVersion ->
        sourceBlockVersionsOf sort prisma blockService w = Ok source ->
        getBlockVersionsByResourceVersions blockService
          (rv_id targetResourceVersion) = target ->
        compareResourceVersions sort prisma blockService w = Ok d,
      forall p, p \in updatedBlocks d ->
        firstWithBlock (sourceBlockVersion p) target (targetBlockVersion p)
    & forall p q, p \in updatedBlocks d -> q \in updatedBlocks d ->
        blockId (sourceBlockVersion p) = blockId (sourceBlockVersion q) ->
        targetBlockVersion p = targetBlockVersion q].
Proof.
move=> d; split.
- move=> sort prisma blockService w trv found eqs eqt.
  by rewrite /d -eqt; apply: compareResourceVersions_found.
- by move=> p /mem_updated [_ /arrayFind_firstWithBlock].
- move=> p q /mem_updated [_ fp _] /mem_updated [_ fq _] same.
  by move: fp; rewrite /sameBlock same fq => -[].
Qed.

Lemma diff_duplicates_first_match_witness :
  [/\ findFirst Example.prisma "r1" "1.10.0" = Value Example.rv110,
      sourceBlockVersionsOf Semver.sort Example.prisma Example.blockService
        Example.request = Ok Example.twice,
      getBlockVersionsByResourceVersions Example.blockService
        (rv_id Example.rv110) = Example.thrice
    & compareResourceVersions Semver.sort Example.prisma Example.blockService
        Example.request
      = Ok (mkDiff [:: mkDiffBlock Example.a1 Example.a3;
                       mkDiffBlock Example.a2 Example.a3] [::] [::])].
Proof.
split; [reflexivity | reflexivity | reflexivity |].
have [returned _ _] := diff_duplicates_first_match Example.twice Example.thrice.
exact: (returned Semver.sort Example.prisma Example.blockService
          Example.request Example.rv110 erefl erefl erefl).
Defined.

(** C10 (as amended): compareResourceVersions raises exactly when no
    resource version with the requested target version is found for the
    resource, or when the source version is not provided and semver's
    sort throws on the version strings stored for the resource. When
    the sort is not the cause, the error carries the not-found message.
    In particular, when the source version is not provided, the sort
    returns and getPreviousVersion resolves nothing, a found target
    resource version gives a result and not an error: the source
    collection is empty, every target block version is reported as
    created and nothing as updated or deleted. *)
Theorem compareResourceVersions_raises
    (sort : seq string -> Result (seq string))
    (prisma : PrismaResourceVersion) (blockService : BlockService)
    (w : CompareResourceVersionsWhere) :
  let r := compareResourceVersions sort prisma blockService w in
  let target := findFirst prisma (resource_id w) (targetVersion w) in
  let sortThrows :=
    ~~ truthyString (sourceVersion w)
    && raises (sortedVersionsOf sort prisma (resource_id w)) in
  [/\ raises r = sortThrows || ~~ truthy target,
      ~~ sortThrows -> raises r -> r = Throw (mkError (notFoundMessage w))
    & ~~ truthyString (sourceVersion w) ->
      forall previous,
        getPreviousVersion sort prisma (resource_id w) (targetVersion w)
          = Ok previous ->
        ~~ truthy previous ->
        forall targetResourceVersion,
          target = Value targetResourceVersion ->
          r = Ok (mkDiff [::]
                    (getBlockVersionsByResourceVersions blockService
                       (rv_id targetResourceVersion))
                    [::])].
Proof.
move=> r target sortThrows; split.
- exact: raisesE.
- rewrite /sortThrows -(sourceBlockVersionsOf_raises sort prisma blockService).
  move=> returns; rewrite /r raisesE.
  rewrite -(sourceBlockVersionsOf_raises sort prisma blockService).
  rewrite (negbTE returns) /=.
  exact: compareResourceVersions_missing.
- move=> nosource previous eqp noprevious trv found.
  have eqs := sourceBlockVersionsOf_previous blockService nosource eqp.
  rewrite /r (compareResourceVersions_found eqs found).
  by case: previous noprevious {eqp eqs} => [||x] // _;
     rewrite diffBlockVersionsE /= filter_predT.
Qed.

Lemma compareResourceVersions_raises_witness :
  [/\ ~~ truthyString (sourceVersion Example.firstRequest),
      getPreviousVersion Semver.sort Example.prisma "r1" "1.0.0" = Ok Null,
      ~~ truthy (Null : nullable ResourceVersion),
      findFirst Example.prisma "r1" "1.0.0" = Value Example.rv10
    & compareResourceVersions Semver.sort Example.prisma Example.blockService
        Example.firstRequest
      = Ok (mkDiff [::] Example.source [::])].
Proof.
have eqp : getPreviousVersion Semver.sort Example.prisma "r1" "1.0.0" = Ok Null.
  by vm_compute.
split; [reflexivity | exact: eqp | reflexivity | reflexivity |].
have [_ _ created] :=
  @compareResourceVersions_raises Semver.sort Example.prisma
    Example.blockService Example.firstRequest.
exact: (created erefl Null eqp erefl Example.rv10 erefl).
Defined.

(* The resource r1 has a stored version string that is no semver
   version. The target 1.0.0 is found, no source version is given, and
   the method raises all the same: the sort throws before the target is
   looked up. *)
Lemma compareResourceVersions_raises_counterexample :
  [/\ findFirst (InMemory.prisma Example.tagged) "r1" "1.0.0" = Value Example.rv10,
      sourceVersion Example.firstRequest = None,
      raises (Semver.sort [:: "latest"; "1.0.0"]%string)
    & raises (compareResourceVersions Semver.sort
                (InMemory.prisma Example.tagged) Example.blockService
                Example.firstRequest)].
Proof. by []. Qed.

Example scenario_missing_target :
  compareResourceVersions Semver.sort Example.prisma Example.blockService
    Example.missingRequest
  = Throw (mkError "Resource version with version 9.9.9 not found for resource r1").
Proof. by []. Qed.

(* ===================================================================== *)
(*  Further properties of the diff loops                                  *)
(* ===================================================================== *)

Lemma has_sameBlock (x : BlockVersion) (l : seq BlockVersion) :
  has (sameBlock x) l = (blockId x \in blockIds l).
Proof.
apply/hasP/mapP => [[y yl /eqP same]|[y yl same]]; exists y => //.
by rewrite /sameBlock same.
Qed.

Lemma createdIdsE (source target : seq BlockVersion) (k : string) :
  (k \in blockIds (createdBlocks (diffBlockVersions source target)))
  = (k \in blockIds target) && (k \notin blockIds source).
Proof.
rewrite diffBlockVersionsE /=; apply/mapP/andP.
  case=> t; rewrite mem_filter has_sameBlock => /andP [nots tt] ->.
  by split=> //; apply: map_f.
case=> /mapP [t tt ->] nots; exists t => //.
by rewrite mem_filter has_sameBlock nots.
Qed.

Lemma deletedIdsE (source target : seq BlockVersion) (k : string) :
  (k \in blockIds (deletedBlocks (diffBlockVersions source target)))
  = (k \in blockIds source) && (k \notin blockIds target).
Proof.
rewrite diffBlockVersionsE /=; apply/mapP/andP.
  case=> s; rewrite mem_filter has_sameBlock => /andP [nott ss] ->.
  by split=> //; apply: map_f.
case=> /mapP [s ss ->] nott; exists s => //.
by rewrite mem_filter has_sameBlock nott.
Qed.

Lemma updatedIds_sub (source target : seq BlockVersion) (k : string) :
  k \in updatedIds (diffBlockVersions source target) ->
  (k \in blockIds source) && (k \in blockIds target).
Proof.
case/mapP=> p /mem_updated [ps found _] ->.
case: (arrayFind_mem found) => tt same.
by rewrite (map_f _ ps) -same (map_f _ tt).
Qed.

(** X1: for arbitrary collections, duplicates included, no block id is
    reported in two of the three outputs: the block ids of createdBlocks,
    of deletedBlocks and of the updatedBlocks pairs are pairwise
    disjoint. The two halves of every pair carry the same block id and
    never the same versionNumber. *)
Theorem diff_outputs_disjoint (source target : seq BlockVersion) (k : string) :
  let d := diffBlockVersions source target in
  [/\ ~~ ((k \in blockIds (createdBlocks d)) && (k \in blockIds (deletedBlocks d))),
      ~~ ((k \in blockIds (createdBlocks d)) && (k \in updatedIds d)),
      ~~ ((k \in blockIds (deletedBlocks d)) && (k \in updatedIds d))
    & forall p, p \in updatedBlocks d ->
        blockId (targetBlockVersion p) = blockId (sourceBlockVersion p)
        /\ versionNumber (sourceBlockVersion p)
             != versionNumber (targetBlockVersion p)].
Proof.
move=> d; rewrite /d createdIdsE deletedIdsE; split.
- by case: (k \in blockIds source); rewrite ?andbF.
- apply/negP => /andP [/andP [_ nots] /updatedIds_sub /andP [ins _]].
  by rewrite ins in nots.
- apply/negP => /andP [/andP [_ nott] /updatedIds_sub /andP [_ int]].
  by rewrite int in nott.
- by move=> p /mem_updated [_ found neq]; case: (arrayFind_mem found).
Qed.

Lemma count3_size (T : Type) (a b c : pred T) (s : seq T) :
  (forall x, a x + b x + c x = 1) ->
  count a s + count b s + count c s = size s.
Proof.
move=> one; elim: s => [|x s IH] //=.
by rewrite [a x + _ + _]addnACA addnACA one IH add1n.
Qed.

(** X2: every item is accounted for exactly once, whatever the inputs.
    The source items split into the deleted ones, the source halves of
    the updated pairs and those found with an equal versionNumber; the
    target items split into the created ones and those whose block id
    occurs in the source collection. So updatedBlocks and deletedBlocks
    together never hold more items than the source collection, nor
    createdBlocks more than the target collection. *)
Theorem diff_sizes (source target : seq BlockVersion) :
  let d := diffBlockVersions source target in
  [/\ size (deletedBlocks d) + size (updatedBlocks d)
        + count (unchanged target) source = size source,
      size (createdBlocks d)
        + count (fun t => has (sameBlock t) source) target = size target,
      size (deletedBlocks d) + size (updatedBlocks d) <= size source
    & size (createdBlocks d) <= size target].
Proof.
move=> d.
have srcE : size (deletedBlocks d) + size (updatedBlocks d)
            + count (unchanged target) source = size source.
  rewrite /d diffBlockVersionsE /= size_filter size_pmap.
  apply: count3_size => s; rewrite /changedPair /unchanged -truthy_arrayFind.
  case: (arrayFind _ _) => [||t] //=.
  by case: (versionNumber s == versionNumber t).
have tgtE : size (createdBlocks d)
            + count (fun t => has (sameBlock t) source) target = size target.
  rewrite /d diffBlockVersionsE /= size_filter addnC.
  exact: (count_predC (fun t => has (sameBlock t) source)).
by split=> //; [rewrite -srcE leq_addr | rewrite -tgtE leq_addr].
Qed.

(* With one item per block id in the target collection, the pairs of
   updatedBlocks are the pairs of a source and a target item with the
   same block id and different version numbers. *)
Lemma mem_updated_uniq (source target : seq BlockVersion) (s t : BlockVersion) :
  uniq (blockIds target) ->
  (mkDiffBlock s t \in updatedBlocks (diffBlockVersions source target))
  = [&& s \in source, t \in target, blockId t == blockId s
      & versionNumber s != versionNumber t].
Proof.
move=> ut; apply/idP/and4P.
  move/mem_updated => /= [ss found neq].
  by case: (arrayFind_mem found) => tt same; split=> //; apply/eqP.
case=> ss tt /eqP same neq; apply: updated_mem => //.
exact: arrayFind_uniq.
Qed.

(** X3: exchanging the two collections exchanges created and deleted,
    for arbitrary inputs: what is created from source to target is what
    is deleted from target to source, item by item and in the same
    order. With one item per block id on each side the updated pairs are
    mirrored as well: (s, t) is a pair of one diff exactly when (t, s)
    is a pair of the other. *)
Theorem diff_swap (source target : seq BlockVersion) :
  let d := diffBlockVersions source target in
  let d' := diffBlockVersions target source in
  [/\ createdBlocks d' = deletedBlocks d,
      deletedBlocks d' = createdBlocks d
    & uniq (blockIds source) -> uniq (blockIds target) ->
      forall s t,
        (mkDiffBlock t s \in updatedBlocks d')
        = (mkDiffBlock s t \in updatedBlocks d)].
Proof.
move=> d d'; split; [by rewrite /d /d' !diffBlockVersionsE
                    | by rewrite /d /d' !diffBlockVersionsE |].
move=> us ut s t; rewrite /d /d' !mem_updated_uniq // [blockId s == _]eq_sym.
rewrite [versionNumber t == _]eq_sym.
by case: (s \in source); rewrite ?andbF.
Qed.

Lemma diff_swap_witness :
  [/\ uniq (blockIds Example.source), uniq (blockIds Example.target),
      mkDiffBlock Example.a1 Example.a2
        \in updatedBlocks (diffBlockVersions Example.source Example.target)
    & mkDiffBlock Example.a2 Example.a1
        \in updatedBlocks (diffBlockVersions Example.target Example.source)].
Proof.
split; [reflexivity | reflexivity | reflexivity |].
have [_ _ mirrored] := diff_swap Example.source Example.target.
by rewrite (mirrored erefl erefl Example.a1 Example.a2).
Defined.

(** X4: with one item per block id on each side, the diff rebuilds the
    target from the source as far as block ids go: the block ids of the
    target collection are, up to order, the created block ids together
    with the source block ids that are not deleted. In numbers:
    |target| + |deleted| = |source| + |created|. *)
Theorem diff_rebuilds_target_ids (source target : seq BlockVersion) :
  uniq (blockIds source) -> uniq (blockIds target) ->
  let d := diffBlockVersions source target in
  perm_eq (blockIds target)
          (blockIds (createdBlocks d)
           ++ [seq k <- blockIds source | k \notin blockIds (deletedBlocks d)])
  /\ size target + size (deletedBlocks d) = size source + size (createdBlocks d).
Proof.
move=> us ut d.
have perm : perm_eq (blockIds target)
              (blockIds (createdBlocks d)
               ++ [seq k <- blockIds source | k \notin blockIds (deletedBlocks d)]).
  apply: uniq_perm => //.
    rewrite cat_uniq filter_uniq // andbT; apply/andP; split.
      apply: (subseq_uniq _ ut); apply: map_subseq.
      by rewrite /d diffBlockVersionsE /=; apply: filter_subseq.
    apply/hasPn => k; rewrite mem_filter => /andP [_ ks] /=.
    by rewrite /d createdIdsE ks andbF.
  move=> k; rewrite mem_cat mem_filter /d createdIdsE deletedIdsE.
  by case: (k \in blockIds target); case: (k \in blockIds source).
split=> //.
have := perm_size perm; rewrite size_cat !size_map => ->.
rewrite -addnA [RHS]addnC; congr (_ + _).
have -> : size [seq k <- blockIds source | k \notin blockIds (deletedBlocks d)]
          = count (fun s => has (sameBlock s) target) source.
  rewrite size_filter count_map; apply: eq_in_count => s ss /=.
  by rewrite /d deletedIdsE (map_f _ ss) /= negbK has_sameBlock.
rewrite /d diffBlockVersionsE /= size_filter.
exact: (count_predC (fun s => has (sameBlock s) target)).
Qed.

Lemma diff_rebuilds_target_ids_witness :
  [/\ uniq (blockIds Example.source), uniq (blockIds Example.target)
    & size Example.target
        + size (deletedBlocks (diffBlockVersions Example.source Example.target))
      = size Example.source
        + size (createdBlocks (diffBlockVersions Example.source Example.target))].
Proof.
split; [reflexivity | reflexivity |].
by case: (@diff_rebuilds_target_ids Example.source Example.target erefl erefl).
Defined.

Lemma arrayFind_map (f : BlockVersion -> BlockVersion) (s : BlockVersion)
    (l : seq BlockVersion) :
  (forall x, blockId (f x) = blockId x) ->
  arrayFind (sameBlock (f s)) [seq f x | x <- l]
  = match arrayFind (sameBlock s) l with
    | Value t => Value (f t)
    | Null => Null
    | Undefined => Undefined
    end.
Proof.
move=> fid; elim: l => [|x l IH] //=.
have -> : sameBlock (f s) (f x) = sameBlock s x by rewrite /sameBlock !fid.
by rewrite IH; case: (sameBlock s x).
Qed.

(** X5: the loops read nothing of an item but its block id and its
    versionNumber. Replacing every item of both collections by an item
    with the same block id and versionNumber (any other content) gives
    the same diff with the items replaced: two block versions that
    differ only in content with an equal versionNumber are never
    reported as updated. *)
Theorem diff_reads_two_fields (f : BlockVersion -> BlockVersion)
    (source target : seq BlockVersion) :
  (forall x, blockId (f x) = blockId x) ->
  (forall x, versionNumber (f x) = versionNumber x) ->
  diffBlockVersions [seq f s | s <- source] [seq f t | t <- target]
  = mapDiff f (diffBlockVersions source target).
Proof.
move=> fid fver.
have hasf x l : has (sameBlock (f x)) [seq f y | y <- l] = has (sameBlock x) l.
  by rewrite has_map; apply: eq_has => y; rewrite /= /sameBlock !fid.
rewrite !diffBlockVersionsE /mapDiff /=; congr mkDiff.
- elim: source => [|s l IH] //=; rewrite IH /changedPair arrayFind_map //.
  case: (arrayFind _ _) => [||t] //=; rewrite !fver.
  by case: (_ != _).
- rewrite filter_map; congr map; apply: eq_filter => t /=.
  by rewrite hasf.
- rewrite filter_map; congr map; apply: eq_filter => s /=.
  by rewrite hasf.
Qed.

Lemma diff_reads_two_fields_witness :
  [/\ forall x, blockId (Sample.redact x) = blockId x,
      forall x, versionNumber (Sample.redact x) = versionNumber x
    & diffBlockVersions [seq Sample.redact s | s <- Example.source]
                        [seq Sample.redact t | t <- Example.target]
      = mapDiff Sample.redact (diffBlockVersions Example.source Example.target)].
Proof.
have fid x : blockId (Sample.redact x) = blockId x by reflexivity.
have fver x : versionNumber (Sample.redact x) = versionNumber x by reflexivity.
split; [exact: fid | exact: fver |].
exact: (diff_reads_two_fields Example.source Example.target fid fver).
Defined.

Lemma comparedFields_uniq (l : seq BlockVersion) :
  uniq (blockIds l) -> uniq [seq comparedFields x | x <- l].
Proof. by move=> ul; apply: (@map_uniq _ _ fst); rewrite -map_comp. Qed.

Lemma comparedFields_inj_in (l : seq BlockVersion) (x y : BlockVersion) :
  uniq (blockIds l) -> x \in l -> y \in l -> blockId x = blockId y -> x = y.
Proof.
move=> ul xl yl same.
have: x \in [seq z <- l | blockId z == blockId y] by rewrite mem_filter xl same eqxx.
by rewrite filter_key_uniq // inE => /eqP.
Qed.

(** X6: with one item per block id on each side, the diff is empty
    exactly when the two collections hold the same (block id,
    versionNumber) combinations, in whatever order. *)
Theorem diff_empty_iff (source target : seq BlockVersion) :
  uniq (blockIds source) -> uniq (blockIds target) ->
  diffBlockVersions source target = emptyDiff
  <-> perm_eq [seq comparedFields s | s <- source]
              [seq comparedFields t | t <- target].
Proof.
move=> us ut; split.
- rewrite diffBlockVersionsE => -[upd cre del].
  have matchS s : s \in source ->
      exists2 t, t \in target & comparedFields t = comparedFields s.
    move=> ss.
    have hs : has (sameBlock s) target.
      apply/negPn/negP => nhs.
      have: s \in [seq s <- source | ~~ has (sameBlock s) target].
        by rewrite mem_filter nhs.
      by rewrite del.
    move: hs; rewrite -truthy_arrayFind.
    case found: (arrayFind _ _) => [||t] // _.
    case: (arrayFind_mem found) => tt same; exists t => //.
    rewrite /comparedFields same; congr (_, _).
    apply/eqP/negPn/negP => neq.
    have: mkDiffBlock s t \in pmap (changedPair target) source.
      rewrite mem_pmap; apply/mapP; exists s => //.
      by rewrite /changedPair found eq_sym neq.
    by rewrite upd.
  apply: uniq_perm; try exact: comparedFields_uniq.
  move=> kv; apply/mapP/mapP => [[s ss ->]|[t tt ->]].
    by case: (matchS s ss) => t tt eqf; exists t.
  have hs : has (sameBlock t) source.
    apply/negPn/negP => nhs.
    have: t \in [seq t <- target | ~~ has (sameBlock t) source].
      by rewrite mem_filter nhs.
    by rewrite cre.
  case/hasP: hs => s ss /eqP same; exists s => //.
  case: (matchS s ss) => t' t't eqf; rewrite -eqf.
  have -> // : t = t'.
  apply: (comparedFields_inj_in ut) => //.
  by rewrite -same; case: eqf.
- move=> perm; have memE := perm_mem perm.
  have matchS s : s \in source ->
      exists2 t, t \in target & comparedFields s = comparedFields t.
    by move=> ss; have := map_f comparedFields ss; rewrite memE => /mapP.
  have matchT t : t \in target ->
      exists2 s, s \in source & comparedFields t = comparedFields s.
    by move=> tt; have := map_f comparedFields tt; rewrite -memE => /mapP.
  rewrite diffBlockVersionsE /emptyDiff; congr mkDiff.
  + apply: pmap_none => s /matchS [t tt [same eqv]].
    by rewrite /changedPair (@arrayFind_uniq target s t) // eqv eqxx.
  + rewrite -(filter_pred0 target); apply: eq_in_filter => t /matchT [s ss [same _]].
    by apply/negbF/hasP; exists s => //; rewrite /sameBlock same.
  + rewrite -(filter_pred0 source); apply: eq_in_filter => s /matchS [t tt [same _]].
    by apply/negbF/hasP; exists t => //; rewrite /sameBlock same.
Qed.

Lemma diff_empty_iff_witness :
  [/\ uniq (blockIds Sample.sourceCopy), uniq (blockIds Example.source),
      perm_eq [seq comparedFields s | s <- Sample.sourceCopy]
              [seq comparedFields t | t <- Example.source]
    & diffBlockVersions Sample.sourceCopy Example.source = emptyDiff].
Proof.
split; [reflexivity | reflexivity | reflexivity |].
by case: (@diff_empty_iff Sample.sourceCopy Example.source erefl erefl) => _; apply.
Defined.

(* With one item per block id, find returns the same item wherever it
   stands in the collection. *)
Lemma arrayFind_perm (target target' : seq BlockVersion) (s : BlockVersion) :
  uniq (blockIds target) -> perm_eq target target' ->
  arrayFind (sameBlock s) target' = arrayFind (sameBlock s) target.
Proof.
move=> ut perm.
have ut' : uniq (blockIds target') by rewrite -(perm_uniq (perm_map blockId perm)).
case hs: (has (sameBlock s) target).
  case/hasP: hs => t tt /eqP same.
  rewrite (@arrayFind_uniq target s t) // (@arrayFind_uniq target' s t) //.
  by rewrite -(perm_mem perm).
rewrite !arrayFind_none ?hs //.
by rewrite -(eq_has_r (perm_mem perm)) hs.
Qed.

(** X7: the order of the inputs decides the order of the outputs and
    nothing else. With one item per block id in the target collection,
    reordering the source and the target collection reorders
    updatedBlocks, createdBlocks and deletedBlocks and leaves their
    content as it is. *)
Theorem diff_reordered (source source' target target' : seq BlockVersion) :
  uniq (blockIds target) ->
  perm_eq source source' -> perm_eq target target' ->
  let d := diffBlockVersions source target in
  let d' := diffBlockVersions source' target' in
  [/\ perm_eq (updatedBlocks d') (updatedBlocks d),
      perm_eq (createdBlocks d') (createdBlocks d)
    & perm_eq (deletedBlocks d') (deletedBlocks d)].
Proof.
move=> ut ps pt d d'; rewrite /d /d' !diffBlockVersionsE /=; split.
- have -> : pmap (changedPair target') source' = pmap (changedPair target) source'.
    apply: eq_pmap => s; rewrite /changedPair.
    by rewrite (arrayFind_perm s ut pt).
  by apply: perm_pmap; rewrite perm_sym.
- have -> : [seq t <- target' | ~~ has (sameBlock t) source']
            = [seq t <- target' | ~~ has (sameBlock t) source].
    by apply: eq_filter => t; rewrite (eq_has_r (perm_mem ps)).
  by apply: perm_filter; rewrite perm_sym.
- have -> : [seq s <- source' | ~~ has (sameBlock s) target']
            = [seq s <- source' | ~~ has (sameBlock s) target].
    by apply: eq_filter => s; rewrite (eq_has_r (perm_mem pt)).
  by apply: perm_filter; rewrite perm_sym.
Qed.

Lemma diff_reordered_witness :
  [/\ uniq (blockIds Example.target),
      perm_eq Example.source Sample.sourceShuffled,
      perm_eq Example.target Sample.targetShuffled
    & perm_eq (createdBlocks
                 (diffBlockVersions Sample.sourceShuffled Sample.targetShuffled))
              (createdBlocks (diffBlockVersions Example.source Example.target))].
Proof.
split; [reflexivity | reflexivity | reflexivity |].
by case: (@diff_reordered Example.source Sample.sourceShuffled Example.target
            Sample.targetShuffled erefl erefl erefl).
Defined.

(* ===================================================================== *)
(*  getPreviousVersion when a previous version exists                     *)
(* ===================================================================== *)

Section IndexOfFound.

Variable T : eqType.
Implicit Types (x : T) (s : seq T).

Lemma indexOfFrom_index i x s :
  x \in s -> indexOfFrom i x s = (i + Z.of_nat (index x s))%Z.
Proof.
elim: s i => [|y s IH] i //=; rewrite inE eq_sym.
case: (y == x) => /= [_|xs]; first by rewrite Z.add_0_r.
by rewrite IH // Zpos_P_of_succ_nat Z.add_succ_comm.
Qed.

Lemma indexOf_index x s : x \in s -> indexOf x s = Z.of_nat (index x s).
Proof. by move=> xs; rewrite /indexOf indexOfFrom_index. Qed.

Lemma arrayGet_pred (x0 : T) s n :
  n < size s -> arrayGet s (Z.of_nat n.+1 - 1)%Z = Some (nth x0 s n).
Proof.
move=> lt; rewrite Nat2Z.inj_succ Z.sub_1_r Z.pred_succ /arrayGet.
have -> : (Z.of_nat n <? 0)%Z = false by apply/Z.ltb_ge/Nat2Z.is_nonneg.
by rewrite Nat2Z.id (drop_nth x0 lt).
Qed.

Lemma nth_before_index (x0 : T) x s n : n < index x s -> nth x0 s n != x.
Proof. by move=> lt; have := before_find x0 lt => /= ->. Qed.

End IndexOfFound.

(* getPreviousVersion once the sort has returned: the requested version
   is absent or first and the result is null, or it stands at a
   position i + 1 of the sorted list and find looks among the rows for
   the version standing at position i. *)
Lemma getPreviousVersion_sorted (sort : seq string -> Result (seq string))
    (prisma : PrismaResourceVersion) (resourceId_ version_ : string)
    (vs : seq string) :
  sortedVersionsOf sort prisma resourceId_ = Ok vs ->
  getPreviousVersion sort prisma resourceId_ version_
  = Ok (if (version_ \in vs) && (0 < index version_ vs)
        then arrayFind
               (fun v => version v == nth EmptyString vs (index version_ vs).-1)
               (findMany prisma resourceId_)
        else Null).
Proof.
rewrite /getPreviousVersion /sortedVersionsOf => ->.
case vin: (version_ \in vs) => /=; last by rewrite indexOf_notin ?vin.
rewrite (indexOf_index vin).
case: (index version_ vs) (index_mem version_ vs) => [|i] // lt.
rewrite vin in lt.
have -> : (Z.of_nat i.+1 =? -1)%Z = false by apply/Z.eqb_neq.
have -> : (Z.of_nat i.+1 =? 0)%Z = false by apply/Z.eqb_neq.
by rewrite (arrayGet_pred EmptyString (ltnW lt)).
Qed.

Lemma getPreviousVersion_thrown (sort : seq string -> Result (seq string))
    (prisma : PrismaResourceVersion) (resourceId_ version_ : string) (e : Error) :
  sortedVersionsOf sort prisma resourceId_ = Throw e ->
  getPreviousVersion sort prisma resourceId_ version_ = Throw e.
Proof. by rewrite /getPreviousVersion /sortedVersionsOf => ->. Qed.

(* What a row returned by getPreviousVersion tells about the call. *)
Lemma getPreviousVersion_valueP (sort : seq string -> Result (seq string))
    (prisma : PrismaResourceVersion) (resourceId_ version_ : string)
    (rv : ResourceVersion) :
  getPreviousVersion sort prisma resourceId_ version_ = Ok (Value rv) ->
  exists2 vs, sortedVersionsOf sort prisma resourceId_ = Ok vs
    & [/\ version_ \in vs, 0 < index version_ vs,
          rv \in findMany prisma resourceId_
        & version rv = nth EmptyString vs (index version_ vs).-1].
Proof.
case eqs: (sortedVersionsOf sort prisma resourceId_) => [vs|e]; last first.
  by rewrite (getPreviousVersion_thrown _ eqs).
rewrite (getPreviousVersion_sorted _ eqs).
case vin: (version_ \in vs) => //=; case pos: (0 < index version_ vs) => //=.
case=> found; exists vs => //.
case: (arrayFind_first found) => pre [post [eqrows /eqP eqver _]].
by split=> //; rewrite eqrows mem_cat inE eqxx orbT.
Qed.

(** X8: when getPreviousVersion returns a resource version, the sort has
    returned, the row is one of the rows read for the resource, the
    requested version occurs in the sorted version list at a position
    other than the first, and the row carries the version standing just
    before the first occurrence of the requested version; that version
    is never the requested one. This holds whatever the sort function
    does. *)
Theorem getPreviousVersion_value (sort : seq string -> Result (seq string))
    (prisma : PrismaResourceVersion) (resourceId_ version_ : string)
    (rv : ResourceVersion) :
  getPreviousVersion sort prisma resourceId_ version_ = Ok (Value rv) ->
  exists2 vs, sortedVersionsOf sort prisma resourceId_ = Ok vs
    & [/\ rv \in findMany prisma resourceId_,
          version_ \in vs,
          0 < index version_ vs,
          version rv = nth EmptyString vs (index version_ vs).-1
        & version rv != version_].
Proof.
move=> /getPreviousVersion_valueP [vs eqs [vin pos rvin eqver]].
exists vs => //; split=> //.
by rewrite eqver; apply: nth_before_index; rewrite prednK.
Qed.

Lemma getPreviousVersion_value_witness :
  getPreviousVersion Semver.sort Example.prisma "r1" "1.10.0"
    = Ok (Value Example.rv12)
  /\ exists2 vs, sortedVersionsOf Semver.sort Example.prisma "r1" = Ok vs
       & version Example.rv12 = nth EmptyString vs (index "1.10.0"%string vs).-1.
Proof.
have found :
  getPreviousVersion Semver.sort Example.prisma "r1" "1.10.0"
  = Ok (Value Example.rv12).
  by vm_compute.
split; first exact: found.
by case: (getPreviousVersion_value found) => vs eqs [_ _ _ eqver _]; exists vs.
Defined.

(** X9: if the sort returns the strings it is given (in whatever order),
    getPreviousVersion returns, and it returns a resource version
    exactly when the requested version is in the sorted version list of
    the resource and is not its first entry; otherwise it returns null.
    It never returns undefined. *)
Theorem getPreviousVersion_exists (sort : seq string -> Result (seq string))
    (prisma : PrismaResourceVersion) (resourceId_ version_ : string)
    (vs : seq string) :
  sortedVersionsOf sort prisma resourceId_ = Ok vs ->
  vs =i [seq version r | r <- findMany prisma resourceId_] ->
  exists previous,
    [/\ getPreviousVersion sort prisma resourceId_ version_ = Ok previous,
        truthy previous = (version_ \in vs) && (0 < index version_ vs),
        ~~ truthy previous -> previous = Null
      & previous <> Undefined].
Proof.
move=> eqs sortE; rewrite (getPreviousVersion_sorted _ eqs).
case vin: (version_ \in vs) => /=; last by exists Null.
case pos: (0 < index version_ vs) => /=; last by exists Null.
have lt : (index version_ vs).-1 < size vs.
  by apply: leq_ltn_trans (leq_pred _) _; rewrite index_mem.
have: has (fun v => version v == nth EmptyString vs (index version_ vs).-1)
          (findMany prisma resourceId_).
  have := mem_nth EmptyString lt; rewrite sortE => /mapP [row rowin eqver].
  by apply/hasP; exists row => //; rewrite -eqver.
rewrite -truthy_arrayFind.
by case: (arrayFind _ _) => [||row] // _; exists (Value row).
Qed.

Lemma Semver_sort_returns (l vs : seq string) :
  Semver.sort l = Ok vs -> vs = Semver.ascending l.
Proof. by rewrite /Semver.sort; case: ifP => // _ [<-]. Qed.

Lemma Semver_sort_mem (l vs : seq string) : Semver.sort l = Ok vs -> vs =i l.
Proof. by move/Semver_sort_returns => -> x; rewrite mem_sort. Qed.

Lemma getPreviousVersion_exists_witness :
  [/\ sortedVersionsOf Semver.sort Example.prisma "r1"
        = Ok [:: "1.0.0"; "1.1.0"; "1.2.0"; "1.10.0"]%string,
      [:: "1.0.0"; "1.1.0"; "1.2.0"; "1.10.0"]%string
        =i [seq version r | r <- findMany Example.prisma "r1"]
    & exists previous,
        getPreviousVersion Semver.sort Example.prisma "r1" "1.2.0" = Ok previous
        /\ truthy previous].
Proof.
have eqs :
  sortedVersionsOf Semver.sort Example.prisma "r1"
  = Ok [:: "1.0.0"; "1.1.0"; "1.2.0"; "1.10.0"]%string.
  by vm_compute.
have sortE := Semver_sort_mem eqs.
split; [exact: eqs | exact: sortE |].
have [previous [eqp eqt _ _]] :=
  @getPreviousVersion_exists Semver.sort Example.prisma "r1" "1.2.0" _ eqs sortE.
by exists previous; split=> //; rewrite eqt.
Defined.

(** X10: if the sort returns its input in ascending order of a reflexive
    and transitive comparison, the version of the row returned by
    getPreviousVersion is below the requested version and is its
    immediate predecessor: every version of the sorted list is below or
    equal to it, or above or equal to the requested one. *)
Theorem getPreviousVersion_predecessor (leq : rel string)
    (sort : seq string -> Result (seq string)) (prisma : PrismaResourceVersion)
    (resourceId_ version_ : string) (rv : ResourceVersion) (vs : seq string) :
  transitive leq -> reflexive leq ->
  sortedVersionsOf sort prisma resourceId_ = Ok vs -> sorted leq vs ->
  getPreviousVersion sort prisma resourceId_ version_ = Ok (Value rv) ->
  leq (version rv) version_
  /\ forall z, z \in vs -> leq z (version rv) || leq version_ z.
Proof.
move=> tr rf eqs srt /getPreviousVersion_valueP [vs' eqs' [vin pos _ eqver]].
have eqvs : vs' = vs by move: eqs'; rewrite eqs => -[].
rewrite eqvs in vin pos eqver.
have mono := sorted_leq_nth tr rf EmptyString srt.
have ilt : index version_ vs < size vs by rewrite index_mem.
have plt : (index version_ vs).-1 < size vs.
  exact: leq_ltn_trans (leq_pred _) ilt.
split.
  have: leq (nth EmptyString vs (index version_ vs).-1)
            (nth EmptyString vs (index version_ vs)).
    by apply: mono; rewrite ?inE // leq_pred.
  by rewrite nth_index // eqver.
move=> z zin; have zlt : index z vs < size vs by rewrite index_mem.
case: (ltnP (index z vs) (index version_ vs)) => cmp; apply/orP; [left | right].
  have: leq (nth EmptyString vs (index z vs))
            (nth EmptyString vs (index version_ vs).-1).
    by apply: mono; rewrite ?inE // -ltnS prednK.
  by rewrite nth_index // eqver.
have: leq (nth EmptyString vs (index version_ vs)) (nth EmptyString vs (index z vs)).
  by apply: mono; rewrite ?inE.
by rewrite !nth_index.
Qed.

Lemma lexLeq_refl (a : seq nat) : Semver.lexLeq a a.
Proof. by elim: a => [|x a IH] //=; rewrite eqxx IH orbT. Qed.

Lemma lexLeq_total (a b : seq nat) : Semver.lexLeq a b || Semver.lexLeq b a.
Proof.
elim: a b => [|x a IH] [|y b] //=.
by case: (ltngtP x y) => //= _; apply: IH.
Qed.

Lemma lexLeq_trans (b a c : seq nat) :
  Semver.lexLeq a b -> Semver.lexLeq b c -> Semver.lexLeq a c.
Proof.
elim: b a c => [|y b IH] [|x a] [|z c] //=.
case/orP => [xy|/andP [/eqP -> ab]]; case/orP => [yz|/andP [/eqP <- bc]].
- by rewrite (ltn_trans xy yz).
- by rewrite xy.
- by rewrite yz.
- by rewrite eqxx (IH _ _ ab bc) orbT.
Qed.

Lemma Semver_leq_trans : transitive Semver.leq.
Proof. by move=> y x z; apply: lexLeq_trans. Qed.

Lemma Semver_leq_refl : reflexive Semver.leq.
Proof. by move=> x; apply: lexLeq_refl. Qed.

Lemma Semver_sort_sorted (l vs : seq string) :
  Semver.sort l = Ok vs -> sorted Semver.leq vs.
Proof.
move/Semver_sort_returns => ->.
by apply: sort_sorted => x y; apply: lexLeq_total.
Qed.

Lemma getPreviousVersion_predecessor_witness :
  [/\ transitive Semver.leq, reflexive Semver.leq,
      sortedVersionsOf Semver.sort Example.prisma "r1"
        = Ok [:: "1.0.0"; "1.1.0"; "1.2.0"; "1.10.0"]%string,
      sorted Semver.leq [:: "1.0.0"; "1.1.0"; "1.2.0"; "1.10.0"]%string
    & getPreviousVersion Semver.sort Example.prisma "r1" "1.10.0"
        = Ok (Value Example.rv12)]
  /\ Semver.leq (version Example.rv12) "1.10.0".
Proof.
have eqs :
  sortedVersionsOf Semver.sort Example.prisma "r1"
  = Ok [:: "1.0.0"; "1.1.0"; "1.2.0"; "1.10.0"]%string.
  by vm_compute.
have srt : sorted Semver.leq [:: "1.0.0"; "1.1.0"; "1.2.0"; "1.10.0"]%string.
  by vm_compute.
have found :
  getPreviousVersion Semver.sort Example.prisma "r1" "1.10.0"
  = Ok (Value Example.rv12).
  by vm_compute.
split; first by split; [exact: Semver_leq_trans | exact: Semver_leq_refl
                       | exact: eqs | exact: srt | exact: found].
by case: (getPreviousVersion_predecessor Semver_leq_trans Semver_leq_refl
            eqs srt found).
Defined.

(* ===================================================================== *)
(*  compareResourceVersions: how the source side is resolved              *)
(* ===================================================================== *)

(** X11: a source version that is given but not stored for the resource
    is no error. When the target version is found, the method returns a
    diff in which every target block version is created and nothing is
    updated or deleted; only a missing target version raises. *)
Theorem compare_unknown_source (sort : seq string -> Result (seq string))
    (prisma : PrismaResourceVersion) (blockService : BlockService)
    (w : CompareResourceVersionsWhere) (given : string)
    (targetResourceVersion : ResourceVersion) :
  sourceVersion w = Some given -> given != EmptyString ->
  ~~ truthy (findFirst prisma (resource_id w) given) ->
  findFirst prisma (resource_id w) (targetVersion w)
    = Value targetResourceVersion ->
  compareResourceVersions sort prisma blockService w
  = Ok (mkDiff [::]
          (getBlockVersionsByResourceVersions blockService
             (rv_id targetResourceVersion))
          [::]).
Proof.
move=> eqs nonempty unknown found.
have given_truthy : truthyString (sourceVersion w).
  by rewrite eqs; case: given nonempty {eqs unknown}.
have eqsrc := sourceBlockVersionsOf_given sort prisma blockService given_truthy.
rewrite (compareResourceVersions_found eqsrc found) eqs /=.
by case: (findFirst _ _ _) unknown => [||x] // _;
   rewrite diffBlockVersionsE /= filter_predT.
Qed.

Lemma compare_unknown_source_witness :
  [/\ sourceVersion SampleRequests.unknownSource = Some "7.7.7"%string,
      "7.7.7"%string != EmptyString,
      ~~ truthy (findFirst Example.prisma "r1" "7.7.7"),
      findFirst Example.prisma "r1" "1.0.0" = Value Example.rv10
    & compareResourceVersions Semver.sort Example.prisma Example.blockService
        SampleRequests.unknownSource
      = Ok (mkDiff [::] Example.source [::])].
Proof.
split; [reflexivity | reflexivity | reflexivity | reflexivity |].
exact: (@compare_unknown_source Semver.sort Example.prisma Example.blockService
          SampleRequests.unknownSource "7.7.7" Example.rv10
          erefl erefl erefl erefl).
Defined.

(** X12: comparing a stored version with itself reports no change. When
    the source version and the target version are the same non-empty
    string, the version is found and the block versions connected to it
    agree on the versionNumber wherever they share a block id (as they
    do with one block version per block), the method returns the empty
    diff. *)
Theorem compare_version_with_itself (sort : seq string -> Result (seq string))
    (prisma : PrismaResourceVersion) (blockService : BlockService)
    (w : CompareResourceVersionsWhere) (rv : ResourceVersion) :
  sourceVersion w = Some (targetVersion w) ->
  targetVersion w != EmptyString ->
  findFirst prisma (resource_id w) (targetVersion w) = Value rv ->
  versionsAgree (getBlockVersionsByResourceVersions blockService (rv_id rv)) ->
  compareResourceVersions sort prisma blockService w = Ok emptyDiff.
Proof.
move=> eqs nonempty found agree.
have given_truthy : truthyString (sourceVersion w).
  by rewrite eqs; case: (targetVersion w) nonempty.
have eqsrc := sourceBlockVersionsOf_given sort prisma blockService given_truthy.
rewrite (compareResourceVersions_found eqsrc found) eqs /= found.
by rewrite diffBlockVersions_agree.
Qed.

Lemma compare_version_with_itself_witness :
  [/\ sourceVersion SampleRequests.itself
        = Some (targetVersion SampleRequests.itself),
      targetVersion SampleRequests.itself != EmptyString,
      findFirst Example.prisma "r1" "1.1.0" = Value Example.rv11,
      versionsAgree
        (getBlockVersionsByResourceVersions Example.blockService
           (rv_id Example.rv11))
    & compareResourceVersions Semver.sort Example.prisma Example.blockService
        SampleRequests.itself = Ok emptyDiff].
Proof.
split; [reflexivity | reflexivity | reflexivity | reflexivity |].
exact: (@compare_version_with_itself Semver.sort Example.prisma
          Example.blockService SampleRequests.itself Example.rv11
          erefl erefl erefl erefl).
Defined.

(** X13: without a source version the target is compared with the
    version just before it. Let the source version be absent or the
    empty string. If the sort returns the strings it is given, the
    target version is found and is in the sorted version list at a
    position other than the first, then getPreviousVersion returns a
    stored row carrying the version that precedes the target in the
    sorted list, and the method returns the diff from the block
    versions of that row to those of the target. *)
Theorem compare_with_previous (sort : seq string -> Result (seq string))
    (prisma : PrismaResourceVersion) (blockService : BlockService)
    (given : option string) (target_ resource_ : string)
    (targetResourceVersion : ResourceVersion) (vs : seq string) :
  ~~ truthyString given ->
  sortedVersionsOf sort prisma resource_ = Ok vs ->
  vs =i [seq version r | r <- findMany prisma resource_] ->
  target_ \in vs -> 0 < index target_ vs ->
  findFirst prisma resource_ target_ = Value targetResourceVersion ->
  exists previous,
    [/\ getPreviousVersion sort prisma resource_ target_ = Ok (Value previous),
        previous \in findMany prisma resource_,
        version previous = nth EmptyString vs (index target_ vs).-1
      & compareResourceVersions sort prisma blockService
          (mkWhere given target_ resource_)
        = Ok (diffBlockVersions
                (getBlockVersionsByResourceVersions blockService
                   (rv_id previous))
                (getBlockVersionsByResourceVersions blockService
                   (rv_id targetResourceVersion)))].
Proof.
move=> falsy eqs sortE tin pos found.
have lt : (index target_ vs).-1 < size vs.
  by apply: leq_ltn_trans (leq_pred _) _; rewrite index_mem.
have: has (fun v => version v == nth EmptyString vs (index target_ vs).-1)
          (findMany prisma resource_).
  have := mem_nth EmptyString lt; rewrite sortE => /mapP [row rowin eqver].
  by apply/hasP; exists row => //; rewrite -eqver.
rewrite -truthy_arrayFind.
have := getPreviousVersion_sorted target_ eqs; rewrite tin pos /=.
case: (arrayFind _ _) => [||previous] // eqp _.
exists previous.
case: (getPreviousVersion_valueP eqp) => vs' eqs' [_ _ pin eqver].
have eqvs : vs' = vs by move: eqs'; rewrite eqs => -[].
rewrite eqvs in eqver; split=> //.
have eqsrc :=
  @sourceBlockVersionsOf_previous sort prisma blockService
    (mkWhere given target_ resource_) _ falsy eqp.
exact: (compareResourceVersions_found eqsrc found).
Qed.

Lemma compare_with_previous_witness :
  [/\ ~~ truthyString (Some EmptyString),
      sortedVersionsOf Semver.sort Example.prisma "r1"
        = Ok [:: "1.0.0"; "1.1.0"; "1.2.0"; "1.10.0"]%string,
      [:: "1.0.0"; "1.1.0"; "1.2.0"; "1.10.0"]%string
        =i [seq version r | r <- findMany Example.prisma "r1"],
      "1.10.0"%string \in [:: "1.0.0"; "1.1.0"; "1.2.0"; "1.10.0"]%string
      /\ 0 < index "1.10.0"%string
               [:: "1.0.0"; "1.1.0"; "1.2.0"; "1.10.0"]%string
    & findFirst Example.prisma "r1" "1.10.0" = Value Example.rv110]
  /\ compareResourceVersions Semver.sort Example.prisma Example.blockService
       (mkWhere (Some EmptyString) "1.10.0" "r1")
     = Ok (mkDiff [:: mkDiffBlock Example.a1 Example.a3;
                      mkDiffBlock Example.a2 Example.a3] [::] [::]).
Proof.
have eqs :
  sortedVersionsOf Semver.sort Example.prisma "r1"
  = Ok [:: "1.0.0"; "1.1.0"; "1.2.0"; "1.10.0"]%string.
  by vm_compute.
have sortE := Semver_sort_mem eqs.
split; first by split; [reflexivity | exact: eqs | exact: sortE
                       | split; reflexivity | reflexivity].
have [previous [eqp _ _ ->]] :=
  @compare_with_previous Semver.sort Example.prisma Example.blockService
    (Some EmptyString) "1.10.0" "r1" Example.rv110 _ erefl eqs sortE
    erefl erefl erefl.
have eqprev : previous = Example.rv12.
  have: getPreviousVersion Semver.sort Example.prisma "r1" "1.10.0"
        = Ok (Value Example.rv12) by vm_compute.
  by rewrite eqp => -[].
by rewrite eqprev.
Defined.

(* ===================================================================== *)
(*  validateVersion and create                                            *)
(* ===================================================================== *)

Lemma truthyString_nonempty (v : string) :
  truthyString (Some v) = (v != EmptyString).
Proof. by case: v. Qed.

Section CreationFacts.

Import Creation.

Variable ServiceTemplate : string.
Variable prisma : PrismaResourceVersion.
Variable services : Services.

(* validateVersion returns for a non-empty version that valid accepts
   and that is not stored for the resource, and throws otherwise. *)
Lemma validateVersion_raises (version_ resourceId_ : string) :
  raises (validateVersion prisma services version_ resourceId_)
  = ~~ [&& version_ != EmptyString, truthyString (valid services version_)
         & ~~ truthy (findFirst prisma resourceId_ version_)].
Proof.
rewrite /validateVersion truthyString_nonempty.
case: (version_ != _) => //=; case: (truthyString _) => //=.
by case: (truthy _).
Qed.

Lemma validateVersion_returns (version_ resourceId_ : string) :
  ~~ raises (validateVersion prisma services version_ resourceId_) ->
  validateVersion prisma services version_ resourceId_ = Ok tt.
Proof. by case: (validateVersion _ _ _ _) => [[]|]. Qed.

End CreationFacts.

(** X14: create writes a row only behind its two guards. A
    prisma.create is issued exactly when the version is non-empty, is
    accepted by valid, is not yet stored for the resource, and the
    resource is found with the ServiceTemplate type; it is then followed
    by one alert trigger carrying the version of the latest stored
    resource version, and the created row is returned when the trigger
    returns. A throw of validateVersion and the TypeError of a missing
    resource leave nothing logged, written or triggered; the one throw
    that leaves a written row behind is the rejection of the alert
    trigger, which create rethrows. *)
Theorem create_guarded (ServiceTemplate : string)
    (prisma : PrismaResourceVersion) (services : Creation.Services)
    (data : Creation.CreateData) :
  let run := Creation.create ServiceTemplate prisma services data in
  let version_ := Creation.data_version data in
  let resourceId_ := Creation.data_resource data in
  let previous :=
    Creation.versionOf (Creation.findLatest services resourceId_) in
  let written :=
    [:: Creation.PrismaCreate (Creation.rowDataOf services data);
        Creation.TriggerAlerts resourceId_ previous version_] in
  [/\ has Creation.isPrismaCreate run.2
      = [&& version_ != EmptyString,
            truthyString (Creation.valid services version_),
            ~~ truthy (findFirst prisma resourceId_ version_)
          & if Creation.resourceFindOne services resourceId_ is Value resource
            then Creation.resourceType resource == ServiceTemplate
            else false],
      has Creation.isPrismaCreate run.2 ->
      run.2 = written
      /\ run.1 = match Creation.triggerAlerts services resourceId_ previous
                         version_ with
                 | Ok _ =>
                     Creation.Returned
                       (Value (Creation.prismaCreate services
                                 (Creation.rowDataOf services data)))
                 | Throw e => Creation.ThrownError e
                 end
    & Creation.thrown run.1 ->
      run.2 = [::]
      \/ exists2 e,
           Creation.triggerAlerts services resourceId_ previous version_
             = Throw e
           & run = (Creation.ThrownError e, written)].
Proof.
move=> run version_ resourceId_ previous written.
rewrite /run /Creation.create /Creation.getLatest.
have := validateVersion_raises prisma services version_ resourceId_.
rewrite -/version_ -/resourceId_ -/previous.
case: (Creation.validateVersion _ _ _ _) => [[]|e] /=; last first.
  move/esym/negbTE => guard; split=> //; last by left.
  by move: guard; case: (_ != _) => //=; case: (truthyString _) => //= ->.
move/esym/negbFE/and3P => [-> -> ->] /=.
case: (Creation.resourceFindOne _ _) => [||resource] /=;
  [by split=> //; left | by split=> //; left |].
case: (_ == ServiceTemplate) => /=; last by split=> //; left.
rewrite -/written.
case eqt: (Creation.triggerAlerts _ _ _ _) => [[]|e] /=; split=> //.
by move=> _; right; exists e.
Qed.

Lemma create_guarded_witness :
  [/\ has Creation.isPrismaCreate
        (Creation.create SampleCreation.ServiceTemplate Example.prisma
           SampleCreation.others SampleCreation.newVersion).2,
      (Creation.create SampleCreation.ServiceTemplate Example.prisma
         SampleCreation.others SampleCreation.newVersion).1
      = Creation.Returned (Value Example.rv10),
      Creation.thrown
        (Creation.create SampleCreation.ServiceTemplate Example.prisma
           SampleCreation.failingAlerts SampleCreation.newVersion).1
    & has Creation.isPrismaCreate
        (Creation.create SampleCreation.ServiceTemplate Example.prisma
           SampleCreation.failingAlerts SampleCreation.newVersion).2].
Proof.
have [_ written _] :=
  @create_guarded SampleCreation.ServiceTemplate Example.prisma
    SampleCreation.others SampleCreation.newVersion.
have [_ _ rethrown] :=
  @create_guarded SampleCreation.ServiceTemplate Example.prisma
    SampleCreation.failingAlerts SampleCreation.newVersion.
split; [reflexivity | by case: (written erefl) | reflexivity |].
by case: (rethrown erefl) => [|[e _ ->]].
Defined.

(** X15: create on a resource that resourceService.findOne does not find
    ends in a TypeError, not in an Error of the service: once the
    version has passed validateVersion, the missing resource is read for
    its resourceType. Nothing is logged, written or triggered. *)
Theorem create_missing_resource (ServiceTemplate : string)
    (prisma : PrismaResourceVersion) (services : Creation.Services)
    (data : Creation.CreateData) :
  ~~ raises (Creation.validateVersion prisma services
               (Creation.data_version data) (Creation.data_resource data)) ->
  ~~ truthy (Creation.resourceFindOne services (Creation.data_resource data)) ->
  Creation.create ServiceTemplate prisma services data
  = (Creation.ThrownTypeError, [::]).
Proof.
move=> /validateVersion_returns valid_ok missing.
rewrite /Creation.create valid_ok.
by case: (Creation.resourceFindOne _ _) missing.
Qed.

Lemma create_missing_resource_witness :
  [/\ ~~ raises (Creation.validateVersion Example.prisma SampleCreation.others
                   "2.0.0" "r9"),
      ~~ truthy (Creation.resourceFindOne SampleCreation.others "r9")
    & Creation.create SampleCreation.ServiceTemplate Example.prisma
        SampleCreation.others SampleCreation.orphanVersion
      = (Creation.ThrownTypeError, [::])].
Proof.
split; [reflexivity | reflexivity |].
exact: (@create_missing_resource SampleCreation.ServiceTemplate Example.prisma
          SampleCreation.others SampleCreation.orphanVersion erefl erefl).
Defined.

Lemma InMemory_create_guarded (ServiceTemplate : string)
    (others : Creation.Services) (newId : string) (rows : seq ResourceVersion)
    (data : Creation.CreateData) :
  let row := mkResourceVersion newId (Creation.data_resource data)
               (Creation.data_version data) (Creation.now others) in
  let run := InMemoryCreation.create ServiceTemplate others newId rows data in
  if InMemoryCreation.guard ServiceTemplate others rows data
  then run.2 = rcons rows row
       /\ (run.1 = Creation.Returned (Value row)
           \/ exists e, run.1 = Creation.ThrownError e)
  else run.2 = rows /\ forall x, run.1 <> Creation.Returned (Value x).
Proof.
rewrite /InMemoryCreation.guard /InMemoryCreation.create /Creation.create.
rewrite /Creation.validateVersion truthyString_nonempty /=.
rewrite InMemory_findFirst_truthy.
case: (_ != EmptyString) => //=.
case: (truthyString _) => //=.
case: (has _ rows) => //=.
case: (Creation.resourceFindOne _ _) => [||resource] //=.
case: (_ == ServiceTemplate) => //=.
case: (Creation.triggerAlerts _ _ _ _) => [[]|e] /=; rewrite ?cats1; split=> //.
  by left.
by right; exists e.
Qed.

Lemma has_key (rows : seq ResourceVersion) (resourceId_ version_ : string) :
  has (fun r => (resourceId r == resourceId_) && (version r == version_)) rows
  = ((resourceId_, version_) \in [seq (resourceId r, version r) | r <- rows]).
Proof.
apply/hasP/mapP => [[r rin /andP [/eqP <- /eqP <-]]|[r rin [-> ->]]].
  by exists r.
by exists r => //; rewrite !eqxx.
Qed.

(** X16: on a table in memory, create keeps the table well formed. If no
    two rows carry the same resource id and version and every stored
    version is accepted by valid, the same holds after create, whatever
    the request and however the call ends. *)
Theorem create_keeps_wellFormed (ServiceTemplate : string)
    (others : Creation.Services) (newId : string) (rows : seq ResourceVersion)
    (data : Creation.CreateData) :
  InMemoryCreation.wellFormed (Creation.valid others) rows ->
  InMemoryCreation.wellFormed (Creation.valid others)
    (InMemoryCreation.create ServiceTemplate others newId rows data).2.
Proof.
move=> wf; have := InMemory_create_guarded ServiceTemplate others newId rows data.
case guard: (InMemoryCreation.guard _ _ _ _) => /=; last by case=> ->.
case=> -> _; case/and4P: guard => _ valid_ok fresh _ /=.
case/andP: wf => uniq_rows valid_rows.
rewrite /InMemoryCreation.wellFormed map_rcons rcons_uniq all_rcons /=.
by rewrite -has_key fresh uniq_rows valid_ok valid_rows.
Qed.

Lemma create_keeps_wellFormed_witness :
  InMemoryCreation.wellFormed SampleCreation.valid Example.rows
  /\ InMemoryCreation.wellFormed SampleCreation.valid
       (InMemoryCreation.create SampleCreation.ServiceTemplate
          SampleCreation.others "rv-new" Example.rows SampleCreation.newVersion).2.
Proof.
split; first reflexivity.
exact: (@create_keeps_wellFormed SampleCreation.ServiceTemplate
          SampleCreation.others "rv-new" Example.rows SampleCreation.newVersion
          erefl).
Defined.

(** X17: a version that create has stored is known afterwards. When
    create on a table in memory returns a row, the table is the old one
    with that row appended, the row carries the resource id and the
    version of the request, and a second create of the same request
    throws the already-exists error and leaves the table as it is.
    compareResourceVersions with that version as target then raises
    only if it is called without a source version and the sort throws
    on the version strings stored for the resource. *)
Theorem create_then_known (ServiceTemplate : string)
    (others : Creation.Services) (newId : string) (rows rows' : seq ResourceVersion)
    (data : Creation.CreateData) (rv : ResourceVersion) :
  InMemoryCreation.create ServiceTemplate others newId rows data
    = (Creation.Returned (Value rv), rows') ->
  let version_ := Creation.data_version data in
  let resourceId_ := Creation.data_resource data in
  [/\ rows' = rcons rows rv,
      resourceId rv = resourceId_ /\ version rv = version_,
      forall newId',
        InMemoryCreation.create ServiceTemplate others newId' rows' data
        = (Creation.ThrownError
             (mkError (Creation.existsMessage version_ resourceId_)), rows')
    & forall sort blockService given,
        raises (compareResourceVersions sort (InMemory.prisma rows')
                  blockService (mkWhere given version_ resourceId_))
        = ~~ truthyString given
          && raises (sortedVersionsOf sort (InMemory.prisma rows') resourceId_)].
Proof.
move=> created version_ resourceId_.
have := InMemory_create_guarded ServiceTemplate others newId rows data.
case guard: (InMemoryCreation.guard _ _ _ _) => /=; last first.
  by rewrite created /=; case=> _ /(_ rv).
rewrite created /= => -[eqrows [[eqrv]|[e //]]].
have known : has (fun r => (resourceId r == resourceId_) && (version r == version_))
                 rows'.
  by rewrite eqrows has_rcons /= !eqxx.
case/and4P: guard => nonempty valid_ok _ _.
split.
- by rewrite eqrows eqrv.
- by rewrite eqrv.
- move=> newId'; rewrite /InMemoryCreation.create /Creation.create.
  rewrite /Creation.validateVersion truthyString_nonempty nonempty /= valid_ok /=.
  by rewrite InMemory_findFirst_truthy known.
- by move=> sort blockService given; rewrite InMemory_raises /= known orbF.
Qed.

Lemma create_then_known_witness :
  InMemoryCreation.create SampleCreation.ServiceTemplate SampleCreation.others
    "rv-new" Example.rows SampleCreation.newVersion
  = (Creation.Returned (Value (mkResourceVersion "rv-new" "r1" "2.0.0" 500)),
     rcons Example.rows (mkResourceVersion "rv-new" "r1" "2.0.0" 500))
  /\ ~~ raises (compareResourceVersions Semver.sort
                 (InMemory.prisma
                    (rcons Example.rows (mkResourceVersion "rv-new" "r1" "2.0.0" 500)))
                 Example.blockService (mkWhere None "2.0.0" "r1")).
Proof.
have created :
  InMemoryCreation.create SampleCreation.ServiceTemplate SampleCreation.others
    "rv-new" Example.rows SampleCreation.newVersion
  = (Creation.Returned (Value (mkResourceVersion "rv-new" "r1" "2.0.0" 500)),
     rcons Example.rows (mkResourceVersion "rv-new" "r1" "2.0.0" 500)).
  by vm_compute.
split; first exact: created.
have [_ _ _ known] := create_then_known created.
by rewrite (known Semver.sort Example.blockService None).
Defined.

(* ===================================================================== *)
(*  getGitInstallationUrl                                                 *)
(* ===================================================================== *)

Example installation_url :
  Github.getGitInstallationUrl
    "https://github.com/apps/x/installations/new?state={state}&next={state}"
    "ws1"
  = "https://github.com/apps/x/installations/new?state=ws1&next={state}"%string.
Proof. by []. Qed.

Example installation_url_dollar :
  Github.getGitInstallationUrl "new?state={state}" "a$$b$&c"
  = "new?state=a$b{state}c"%string.
Proof. by []. Qed.

Section StringFacts.

Local Notation "s +++ t" := (String.append s t)
  (at level 60, right associativity).

Import JsString.

Lemma append_empty (s : string) : s +++ EmptyString = s.
Proof. by elim: s => [|c s IH] //=; rewrite IH. Qed.

Lemma append_assoc (s t u : string) : (s +++ t) +++ u = s +++ (t +++ u).
Proof. by elim: s => [|c s IH] //=; rewrite IH. Qed.

Lemma length_append (s t : string) :
  String.length (s +++ t) = String.length s + String.length t.
Proof. by elim: s => [|c s IH] //=; rewrite IH. Qed.

Lemma prefix_append (p a : string) : String.prefix p (p +++ a).
Proof.
elim: p => [|c p IH] /=; first by case: a.
by case: (ascii_dec c c).
Qed.

Lemma prefix_drop (p s : string) :
  String.prefix p s -> s = p +++ dropString (String.length p) s.
Proof.
elim: p s => [|c p IH] [|d s] //=.
by case: (ascii_dec c d) => // -> /IH <-.
Qed.

Lemma dropString_append (p a : string) :
  dropString (String.length p) (p +++ a) = a.
Proof. by elim: p => [|c p IH] //=; case: a. Qed.

(* Two ways of cutting one string at the same length are the same. *)
Lemma append_inj (b b' r r' : string) :
  String.length b = String.length b' -> b +++ r = b' +++ r' ->
  b = b' /\ r = r'.
Proof.
elim: b b' => [|c b IH] [|c' b'] //= [eqlen] [-> eqrest].
by case: (IH _ eqlen eqrest) => -> ->.
Qed.

Lemma splitFirstE (pattern s : string) :
  splitFirst pattern s
  = if String.prefix pattern s
    then Some (EmptyString, dropString (String.length pattern) s)
    else match s with
         | EmptyString => None
         | String c s' =>
             if splitFirst pattern s' is Some (before, after)
             then Some (String c before, after)
             else None
         end.
Proof. by case: s. Qed.

Lemma splitFirst_some (pattern s before after : string) :
  splitFirst pattern s = Some (before, after) ->
  s = before +++ pattern +++ after.
Proof.
elim: s before after => [|c s IH] before after; rewrite splitFirstE.
  by case pre: (String.prefix _ _) => // -[<- <-]; rewrite [RHS]/= -prefix_drop.
case pre: (String.prefix _ _).
  by case=> <- <-; rewrite [RHS]/= -prefix_drop.
case eqs: (splitFirst pattern s) => [[b a]|] // [<- <-].
by rewrite [RHS]/= -(IH _ _ eqs).
Qed.

Lemma splitFirst_none (pattern s : string) :
  splitFirst pattern s = None ->
  forall before after, s <> before +++ pattern +++ after.
Proof.
elim: s => [|c s IH]; rewrite splitFirstE.
  case pre: (String.prefix _ _) => // _ [|d b] a //= eqs.
  by move: pre; rewrite eqs prefix_append.
case pre: (String.prefix _ _) => //.
case eqs: (splitFirst pattern s) => [[b a]|] // _ [|d before] after /= eqcs.
  by move: pre; rewrite eqcs prefix_append.
by case: eqcs => _; apply: IH.
Qed.

Lemma splitFirst_first (pattern s before after : string) :
  splitFirst pattern s = Some (before, after) ->
  forall before' after', s = before' +++ pattern +++ after' ->
  String.length before <= String.length before'.
Proof.
elim: s before after => [|c s IH] before after; rewrite splitFirstE.
  by case pre: (String.prefix _ _) => // -[<- _].
case pre: (String.prefix _ _); first by case=> <- _.
case eqs: (splitFirst pattern s) => [[b a]|] // [<- _] [|d before'] after' /= eqcs.
  by move: pre; rewrite eqcs prefix_append.
by case: eqcs => _ eqrest; apply: (IH _ _ eqs before' after').
Qed.

Lemma splitFirst_at (pattern before after : string) :
  firstOccurrence pattern before after ->
  splitFirst pattern (before +++ pattern +++ after) = Some (before, after).
Proof.
move=> first.
case eqs: (splitFirst _ _) => [[b a]|]; last first.
  by case: (splitFirst_none eqs (before := before) (after := after)).
have eqba := splitFirst_some eqs.
have le1 := splitFirst_first eqs erefl.
have le2 := first _ _ eqba.
have eqlen : String.length b = String.length before.
  by apply/eqP; rewrite eqn_leq le1 le2.
case: (append_inj eqlen (esym eqba)) => eqb eqrest.
have eqlenp : String.length pattern = String.length pattern by [].
by case: (append_inj eqlenp eqrest) => _ ->; rewrite eqb.
Qed.

Lemma getSubstitution_dollarFree (matched before after template rest : string) :
  dollarFree template ->
  getSubstitution matched before after (template +++ rest)
  = template +++ getSubstitution matched before after rest.
Proof.
elim: template => [|c t IH] //= /andP [notdollar free].
rewrite -IH //.
case: c notdollar => [[] [] [] [] [] [] [] []] //= _.
Qed.

End StringFacts.

Local Notation "s +++ t" := (String.append s t)
  (at level 60, right associativity).

Lemma firstOccurrence_split (pattern before after : string) :
  JsString.splitFirst pattern (before +++ pattern +++ after)
    = Some (before, after) ->
  JsString.firstOccurrence pattern before after.
Proof. by move=> eqs before' after' eqd; apply: (splitFirst_first eqs eqd). Qed.

Lemma getSubstitution_free (matched before after template : string) :
  JsString.dollarFree template ->
  JsString.getSubstitution matched before after template = template.
Proof.
move=> free; rewrite -{1}(append_empty template).
by rewrite getSubstitution_dollarFree // append_empty.
Qed.

(** X18: getGitInstallationUrl puts the workspace id in the place of the
    first {state} of the url and nowhere else. For a workspace id
    without dollar sign and a url cut around the first occurrence of
    the placeholder, the result is the text before, the workspace id
    and the text after, in which further placeholders are kept. *)
Theorem installation_url_first_placeholder (before after workspaceId : string) :
  JsString.dollarFree workspaceId ->
  JsString.firstOccurrence Github.statePlaceholder before after ->
  Github.getGitInstallationUrl
    (before +++ Github.statePlaceholder +++ after) workspaceId
  = before +++ workspaceId +++ after.
Proof.
move=> free first.
rewrite /Github.getGitInstallationUrl /JsString.replace splitFirst_at //.
by rewrite getSubstitution_free.
Qed.

Lemma installation_url_first_placeholder_witness :
  [/\ JsString.dollarFree "ws1",
      JsString.firstOccurrence Github.statePlaceholder
        SampleUrl.before SampleUrl.after
    & Github.getGitInstallationUrl
        (SampleUrl.before +++ Github.statePlaceholder +++ SampleUrl.after) "ws1"
      = SampleUrl.before +++ "ws1" +++ SampleUrl.after].
Proof.
have first :
  JsString.firstOccurrence Github.statePlaceholder SampleUrl.before SampleUrl.after.
  by apply: firstOccurrence_split; vm_compute.
split; [reflexivity | exact: first |].
exact: (@installation_url_first_placeholder SampleUrl.before SampleUrl.after
          "ws1" erefl first).
Defined.

(** X19: a url without the {state} placeholder is returned as it is: the
    workspace id is dropped without any error. *)
Theorem installation_url_without_placeholder (url workspaceId : string) :
  (forall before after, url <> before +++ Github.statePlaceholder +++ after) ->
  Github.getGitInstallationUrl url workspaceId = url.
Proof.
move=> absent; rewrite /Github.getGitInstallationUrl /JsString.replace.
case eqs: (JsString.splitFirst _ _) => [[before after]|] //.
by case: (absent _ _ (splitFirst_some eqs)).
Qed.

Lemma installation_url_without_placeholder_witness :
  (forall before after,
     SampleUrl.plain <> before +++ Github.statePlaceholder +++ after)
  /\ Github.getGitInstallationUrl SampleUrl.plain "ws1" = SampleUrl.plain.
Proof.
have absent before after :
  SampleUrl.plain <> before +++ Github.statePlaceholder +++ after.
  by apply: splitFirst_none; vm_compute.
split; first exact: absent.
exact: (@installation_url_without_placeholder SampleUrl.plain "ws1" absent).
Defined.

(** X20: a workspace id is a replacement template, not a literal text:
    its dollar patterns are expanded. Between parts without dollar
    sign, $$ is inserted as one dollar sign, $& as the placeholder
    {state} itself, $` as the url text before the placeholder and $' as
    the url text after it. *)
Theorem installation_url_dollar_patterns (before after w1 w2 : string) :
  JsString.dollarFree w1 -> JsString.dollarFree w2 ->
  JsString.firstOccurrence Github.statePlaceholder before after ->
  let url := before +++ Github.statePlaceholder +++ after in
  [/\ Github.getGitInstallationUrl url (w1 +++ "$$" +++ w2)
      = before +++ (w1 +++ "$" +++ w2) +++ after,
      Github.getGitInstallationUrl url (w1 +++ "$&" +++ w2)
      = before +++ (w1 +++ Github.statePlaceholder +++ w2) +++ after,
      Github.getGitInstallationUrl url (w1 +++ "$`" +++ w2)
      = before +++ (w1 +++ before +++ w2) +++ after
    & Github.getGitInstallationUrl url (w1 +++ "$'" +++ w2)
      = before +++ (w1 +++ after +++ w2) +++ after].
Proof.
move=> free1 free2 first url.
rewrite /url /Github.getGitInstallationUrl /JsString.replace splitFirst_at //.
by split; rewrite getSubstitution_dollarFree //= getSubstitution_free.
Qed.

Lemma installation_url_dollar_patterns_witness :
  [/\ JsString.dollarFree "a", JsString.dollarFree "b",
      JsString.firstOccurrence Github.statePlaceholder
        SampleUrl.before SampleUrl.after
    & Github.getGitInstallationUrl
        (SampleUrl.before +++ Github.statePlaceholder +++ SampleUrl.after)
        ("a" +++ "$&" +++ "b")
      = SampleUrl.before +++ ("a" +++ Github.statePlaceholder +++ "b")
          +++ SampleUrl.after].
Proof.
have first :
  JsString.firstOccurrence Github.statePlaceholder SampleUrl.before SampleUrl.after.
  by apply: firstOccurrence_split; vm_compute.
split; [reflexivity | reflexivity | exact: first |].
by case: (@installation_url_dollar_patterns SampleUrl.before SampleUrl.after
            "a" "b" erefl erefl first).
Defined.

(* ===================================================================== *)
(*  The two mappings of listed repositories                               *)
(* ===================================================================== *)

Lemma mapCompletion_paged (l : seq GithubRepos.ApiRepository) :
  GithubRepos.mapCompletion GithubRepos.toRemotePaged l
  = if all (fun repo => GithubRepos.permissions repo) l
    then Creation.Returned
           [seq GithubRepos.withoutBranch (GithubRepos.toRemote repo) | repo <- l]
    else Creation.ThrownTypeError.
Proof.
elim: l => [|repo l IH] //=; rewrite IH /GithubRepos.toRemotePaged.
rewrite /GithubRepos.withoutBranch /GithubRepos.toRemote /GithubRepos.adminOrFalse.
case: (GithubRepos.permissions repo) => [p|] //=.
by case: (all _ l) => //; rewrite orbF.
Qed.

(** X21: the paginated listing differs from the plain one on
    repositories without permissions. It ends in a TypeError as soon as
    one listed repository carries no permissions object, where the
    plain mapping reports admin as false; when every repository carries
    one, it returns the repositories of the plain mapping without their
    defaultBranch, with the total count of the response, and with the
    limit and page it was given or their defaults 10 and 1. *)
Theorem paginated_listing (request : Z -> Z -> GithubRepos.Listing)
    (limit page : option Z) :
  let limit_ := odflt 10%Z limit in
  let page_ := odflt 1%Z page in
  let results := request limit_ page_ in
  GithubRepos.getOrganizationReposWithOctokitAndPagination request limit page
  = if all (fun repo => GithubRepos.permissions repo)
           (GithubRepos.repositories results)
    then Creation.Returned
           (GithubRepos.mkRemoteGitRepos (GithubRepos.total_count results)
              [seq GithubRepos.withoutBranch r
              | r <- GithubRepos.getOrganizationReposWithOctokit results]
              limit_ page_)
    else Creation.ThrownTypeError.
Proof.
move=> limit_ page_ results.
rewrite /GithubRepos.getOrganizationReposWithOctokitAndPagination.
rewrite -/limit_ -/page_ -/results mapCompletion_paged.
rewrite /GithubRepos.getOrganizationReposWithOctokit -map_comp.
by case: (all _ _).
Qed.

Example paginated_listing_throws :
  GithubRepos.getOrganizationReposWithOctokitAndPagination
    GithubRepos.samplePage None None = Creation.ThrownTypeError
  /\ [seq GithubRepos.repo_admin r
     | r <- GithubRepos.getOrganizationReposWithOctokit
              (GithubRepos.samplePage 10 1)] = [:: true; false].
Proof. by []. Qed.
